(** * Virtual screen reader: accessibility-tree classifier and cursor engine

    A shallow embedding of the TypeScript sources

    - [src/isHiddenFromAccessibilityTree.ts]
    - [src/getNodeAccessibilityData/index.ts]
    - [src/Virtual.ts]

    The host document is an external collaborator: a DOM node is referred to
    by an opaque reference (compared with [===] in the source), and what the
    host answers about a node at one point in time is a record of its
    observable properties.  Repository functions whose source is not part of
    the development ([isElement], [getSpokenPhrase], [flattenTree], the
    command table, ...) are taken as parameters. *)

From Stdlib Require Import ZArith String Ascii List Bool Lia.
From stdpp Require Import base decidable option list gmap strings.

Local Open Scope string_scope.
Local Open Scope list_scope.
Local Open Scope Z_scope.

(** ** JavaScript values and array methods *)

(** Errors that reach the caller.  The first two are the messages exported by
    [./errors]; [TypeError] and [RangeError] are the language's own;
    [HostError] stands for whatever a DOM implementation throws. *)
Inductive Error :=
| ERR_VIRTUAL_NOT_STARTED
| ERR_VIRTUAL_MISSING_CONTAINER
| TypeError
| RangeError
| HostError.

(** Result of evaluating something that may throw. *)
Inductive Completion (A : Type) :=
| Normal (a : A)
| Throw (e : Error).
Arguments Normal {A} a.
Arguments Throw {A} e.

(** [s] is truthy: a string is falsy exactly when it is empty. *)
Definition truthy (s : string) : bool :=
  match s with
  | EmptyString => false
  | String _ _ => true
  end.

(** [Array.prototype.at] on an integer index: a negative index counts from
    the end, anything out of range is [undefined]. *)
Definition at_ {A} (l : list A) (i : Z) : option A :=
  let k := if i <? 0 then Z.of_nat (length l) + i else i in
  if k <? 0 then None else l !! Z.to_nat k.

(** [Array.prototype.findIndex]: the first index whose element satisfies the
    callback, [-1] when there is none. *)
Fixpoint findIndex {A} (p : A -> bool) (l : list A) : Z :=
  match l with
  | [] => -1
  | x :: l' =>
      if p x then 0
      else let i := findIndex p l' in if i <? 0 then -1 else i + 1
  end.

(** White space removed by [String.prototype.trim], restricted to the
    one-byte code points (strings are byte strings here). *)
Definition isWhiteSpace (c : ascii) : bool :=
  let n := nat_of_ascii c in
  (9 <=? n)%nat && (n <=? 13)%nat || (n =? 32)%nat.

Fixpoint trimStart (s : string) : string :=
  match s with
  | EmptyString => EmptyString
  | String c s' => if isWhiteSpace c then trimStart s' else s
  end.

Definition trim (s : string) : string :=
  String.rev (trimStart (String.rev (trimStart s))).

(** ** The host document *)

(** A reference to a DOM node; [===] on nodes is equality of references. *)
Definition NodeRef := positive.
Bind Scope positive_scope with NodeRef.

Record CSSStyleDeclaration := {
  visibility : string;
  display : string;
}.

(** What the host reports for one node.  [hidden] is [node.hidden === true];
    [tabbable] is the answer of the [tabbable] library for the node and
    [computedStyle] the answer of
    [node.ownerDocument.defaultView?.getComputedStyle?.(node)]: both may throw
    on elements a DOM implementation does not support, and the style is
    [undefined] when there is no default view.  [appendOverlay] and
    [removeOverlay] are the answers of [node.appendChild(cursor)] and
    [node.removeChild(cursor)] for the engine's cursor overlay: the first
    throws on a node that takes no element child, the second when the
    overlay is not a child of the node. *)
Record Node := {
  nodeType : Z;
  localName : string;
  textContent : string;
  attributes : gmap string string;
  hidden : bool;
  tabbable : Completion (list NodeRef);
  computedStyle : Completion (option CSSStyleDeclaration);
  appendOverlay : Completion unit;
  removeOverlay : Completion unit;
}.

Definition TEXT_NODE : Z := 3.

Definition getAttribute (n : Node) (name : string) : option string :=
  attributes n !! name.

Definition hasAttribute (n : Node) (name : string) : bool :=
  bool_decide (is_Some (attributes n !! name)).

(** The host document at one point in time: what each reference denotes. *)
Definition Document := NodeRef -> Node.

(** Repository helpers over DOM nodes whose source is not part of the
    development: [./isElement], [./getLocalName], [./isDialogRole]. *)
Class DomHelpers := {
  isElement : Node -> bool;
  getLocalName : Node -> string;
  isDialogRole : string -> bool;
}.

(** ** [isHiddenFromAccessibilityTree] *)

Section Hidden.
Context `{DomHelpers}.

(** The tail of the [try] block: the computed-style test, with the [catch]
    that answers [true] when the host throws. *)
Definition styleHides (n : Node) : bool :=
  match computedStyle n with
  | Throw _ => true
  | Normal None => false
  | Normal (Some st) =>
      bool_decide (visibility st = "hidden")
      || bool_decide (display st = "none")
  end.

(** The module-level flag [warned] is threaded through: the function takes
    its value and returns the verdict with the flag's new value. *)
Definition isHiddenFromAccessibilityTree
    (node : option Node) (warned : bool) : bool * bool :=
  match node with
  | None => (true, warned)
  | Some n =>
      if (nodeType n =? TEXT_NODE) && truthy (trim (textContent n))
      then (false, warned)
      else if negb (isElement n) then (true, warned)
      else if hidden n then (true, warned)
      else if bool_decide (getAttribute n "aria-hidden" = Some "true") then
        match tabbable n with
        | Throw _ => (true, warned)
        | Normal ts =>
            if (length ts =? 0)%nat then (true, warned)
            else (styleHides n, true)
        end
      else (styleHides n, warned)
  end.

End Hidden.

(** ** [getNodeAccessibilityData] *)

(** What [getRole] answers for a node. *)
Module Resolved.
Record t := {
  explicitRole : string;
  implicitRole : string;
  role : string;
}.
End Resolved.

(** An entry of the [roles] table of [html-aria], as far as it is read. *)
Module Role.
Record t := {
  allowedChildRoles : list string;
  childrenPresentational : bool;
}.
End Role.

(** The object that [getNodeAccessibilityData] returns. *)
Module NodeAccessibilityData.
Record t := {
  accessibleDescription : string;
  accessibleName : string;
  accessibleValue : string;
  allowedAccessibilityChildRoles : list string;
  childrenPresentational : bool;
  isExplicitPresentational : bool;
  isInert : bool;
  role : string;
  spokenRole : string;
}.
End NodeAccessibilityData.

(** The naming oracle, the role resolution of [./getRole] and the role table:
    none of them is part of the development. *)
Class RoleData := {
  getAccessibleDescription : Node -> string;
  getAccessibleName : Node -> string;
  getAccessibleValue : Node -> string;
  getRole : string -> list string -> bool -> Node -> Resolved.t;
  presentationRoles : gset string;
  roles : gmap string Role.t;
}.

Section Classifier.
Context `{DomHelpers} `{RoleData}.

(** The keys of [roles] whose entry has [childrenPresentational]. *)
Definition childrenPresentationalRoles : gset string :=
  dom (filter (fun entry => Role.childrenPresentational entry.2 = true) roles).

Definition getSpokenRole
    (isGeneric isPresentational : bool) (node : Node) (role : string)
  : string :=
  if isPresentational || isGeneric then ""
  else
    let roledescription :=
      if isElement node then getAttribute node "aria-roledescription"
      else None in
    match roledescription with
    | Some r => if truthy r then r else role
    | None => role
    end.

Definition getIsInert
    (inheritedImplicitInert : bool) (node : Node) (role : string) : bool :=
  if negb (isElement node) then inheritedImplicitInert
  else
    let isNativeModalDialog :=
      bool_decide (getLocalName node = "dialog") && hasAttribute node "open" in
    let isNonNativeModalDialog :=
      isDialogRole role && hasAttribute node "aria-modal" in
    let isModalDialog := isNonNativeModalDialog || isNativeModalDialog in
    let isExplicitInert := hasAttribute node "inert" in
    isExplicitInert || (inheritedImplicitInert && negb isModalDialog).

(** [roles[role]?.allowedChildRoles], the empty array for an unknown role. *)
Definition allowedChildRolesOf (role : string) : list string :=
  match roles !! role with
  | Some definition => Role.allowedChildRoles definition
  | None => []
  end.

Definition getNodeAccessibilityData
    (allowedAccessibilityRoles : list string)
    (inheritedImplicitInert inheritedImplicitPresentational : bool)
    (node : Node) : NodeAccessibilityData.t :=
  let accessibleDescription := getAccessibleDescription node in
  let accessibleName := getAccessibleName node in
  let accessibleValue := getAccessibleValue node in
  let resolved :=
    getRole accessibleName allowedAccessibilityRoles
      inheritedImplicitPresentational node in
  let explicitRole := Resolved.explicitRole resolved in
  let implicitRole := Resolved.implicitRole resolved in
  let role := Resolved.role resolved in
  let amendedAccessibleDescription :=
    if bool_decide (accessibleDescription = accessibleName) then ""
    else accessibleDescription in
  let isExplicitPresentational :=
    bool_decide (explicitRole ∈ presentationRoles) in
  let isPresentational := bool_decide (role ∈ presentationRoles) in
  let isGeneric := bool_decide (role = "generic") in
  let spokenRole := getSpokenRole isGeneric isPresentational node role in
  let allowedAccessibilityChildRoles := allowedChildRolesOf role in
  let implicitAllowedAccessibilityChildRoles := allowedChildRolesOf implicitRole in
  let isChildrenPresentationalRole :=
    bool_decide (role ∈ childrenPresentationalRoles) in
  let isExplicitOrInheritedPresentation :=
    isExplicitPresentational || inheritedImplicitPresentational in
  let isElementWithImplicitAllowedAccessibilityChildRoles :=
    negb (length implicitAllowedAccessibilityChildRoles =? 0)%nat in
  let childrenInheritPresentationExceptAllowedRoles :=
    isExplicitOrInheritedPresentation
    && isElementWithImplicitAllowedAccessibilityChildRoles in
  let childrenPresentational :=
    isChildrenPresentationalRole
    || childrenInheritPresentationExceptAllowedRoles in
  let isInert := getIsInert inheritedImplicitInert node role in
  {| NodeAccessibilityData.accessibleDescription := amendedAccessibleDescription;
     NodeAccessibilityData.accessibleName := accessibleName;
     NodeAccessibilityData.accessibleValue := accessibleValue;
     NodeAccessibilityData.allowedAccessibilityChildRoles :=
       allowedAccessibilityChildRoles;
     NodeAccessibilityData.childrenPresentational := childrenPresentational;
     NodeAccessibilityData.isExplicitPresentational := isExplicitPresentational;
     NodeAccessibilityData.isInert := isInert;
     NodeAccessibilityData.role := role;
     NodeAccessibilityData.spokenRole := spokenRole |}.

(** The wording of the specification, to compare the inert flag with: what
    it is to carry an attribute and to be a modal dialog. *)
Definition carries (node : Node) (name : string) : Prop :=
  exists value, attributes node !! name = Some value.

Definition modal_dialog (node : Node) (role : string) : Prop :=
  (getLocalName node = "dialog" /\ carries node "open")
  \/ (isDialogRole role = true /\ carries node "aria-modal").

End Classifier.

(** ** The accessibility tree as the engine sees it *)

(** Modelled from the spec: the [AccessibilityNode] interface is declared in
    [./createAccessibilityTree], which is not part of the development; the
    fields are those of the data model, without the tree edges (the engine
    only handles flattened entries). *)
Record AccessibilityNode := {
  accessibleDescription : string;
  accessibleName : string;
  accessibleValue : string;
  allowedAccessibilityChildRoles : list string;
  childrenPresentational : bool;
  isExplicitPresentational : bool;
  isInert : bool;
  node : NodeRef;
  parentDialog : option NodeRef;
  role : string;
  spokenRole : string;
}.

(** The collaborators of [Virtual.ts] whose source is not part of the
    development.  Those that read the live document take it as an argument. *)
Class Collaborators := {
  AccessibilityNodeTree : Type;
  createAccessibilityTree :
    Document -> option NodeRef -> option AccessibilityNodeTree;
  flattenTree :
    Document -> NodeRef -> AccessibilityNodeTree -> list AccessibilityNode;
  getSpokenPhrase : Document -> AccessibilityNode -> string;
  getItemText : Document -> AccessibilityNode -> string;
  MutationRecord : Type;
  getLiveSpokenPhrase : Document -> option NodeRef -> MutationRecord -> string;
  LIVE_ASSERTIVE : string;
  LIVE_POLITE : string;
  CommandOptions : Type;
  (** [commands[command]?.(...)]: [Some] for a name whose property is a
      function that answers an index or something that is not a number.  For
      the other names [uncallable] tells what the call does: [false] when
      the property is [undefined] and the call is skipped, [true] when the
      call throws a [TypeError] (the table inherits from [Object.prototype]:
      [__proto__] is an object and no function). *)
  commands :
    string ->
    option (Document -> CommandOptions -> option NodeRef -> Z ->
            list AccessibilityNode -> option Z);
  uncallable : string -> bool;
  (** The input simulation of [@testing-library/user-event], as far as the
      engine depends on it: whether the interaction resolves or rejects.  The
      target is the element of the active node; [userEventPointer] stands
      for building [keys] from the button name and the count (with
      [String.prototype.repeat]) and handing them to [userEvent.pointer]. *)
  userEventClick : AccessibilityNode -> Completion unit;
  userEventKeyboard : string -> Completion unit;
  userEventType : AccessibilityNode -> string -> Completion unit;
  userEventPointer : AccessibilityNode -> string -> Z -> Completion unit;
}.

(** ** The engine: private fields of [class Virtual] *)

(** [_cursor], [_disconnectDOMObserver] and [_boundHandleFocusChange] record
    whether the field holds an object; the objects themselves belong to the
    host. *)
Record Virtual := {
  _activeNode : option AccessibilityNode;
  _container : option NodeRef;
  _cursor : bool;
  _itemTextLog : list string;
  _spokenPhraseLog : list string;
  _treeCache : option (list AccessibilityNode);
  _disconnectDOMObserver : bool;
  _boundHandleFocusChange : bool;
}.

(** [new Virtual()] *)
Definition newVirtual : Virtual := {|
  _activeNode := None;
  _container := None;
  _cursor := false;
  _itemTextLog := [];
  _spokenPhraseLog := [];
  _treeCache := None;
  _disconnectDOMObserver := false;
  _boundHandleFocusChange := false;
|}.

Definition set_activeNode (v : option AccessibilityNode) (s : Virtual) :=
  {| _activeNode := v; _container := _container s; _cursor := _cursor s;
     _itemTextLog := _itemTextLog s; _spokenPhraseLog := _spokenPhraseLog s;
     _treeCache := _treeCache s;
     _disconnectDOMObserver := _disconnectDOMObserver s;
     _boundHandleFocusChange := _boundHandleFocusChange s |}.

Definition set_container (v : option NodeRef) (s : Virtual) :=
  {| _activeNode := _activeNode s; _container := v; _cursor := _cursor s;
     _itemTextLog := _itemTextLog s; _spokenPhraseLog := _spokenPhraseLog s;
     _treeCache := _treeCache s;
     _disconnectDOMObserver := _disconnectDOMObserver s;
     _boundHandleFocusChange := _boundHandleFocusChange s |}.

Definition set_cursor (v : bool) (s : Virtual) :=
  {| _activeNode := _activeNode s; _container := _container s; _cursor := v;
     _itemTextLog := _itemTextLog s; _spokenPhraseLog := _spokenPhraseLog s;
     _treeCache := _treeCache s;
     _disconnectDOMObserver := _disconnectDOMObserver s;
     _boundHandleFocusChange := _boundHandleFocusChange s |}.

Definition set_itemTextLog (v : list string) (s : Virtual) :=
  {| _activeNode := _activeNode s; _container := _container s;
     _cursor := _cursor s;
     _itemTextLog := v; _spokenPhraseLog := _spokenPhraseLog s;
     _treeCache := _treeCache s;
     _disconnectDOMObserver := _disconnectDOMObserver s;
     _boundHandleFocusChange := _boundHandleFocusChange s |}.

Definition set_spokenPhraseLog (v : list string) (s : Virtual) :=
  {| _activeNode := _activeNode s; _container := _container s;
     _cursor := _cursor s;
     _itemTextLog := _itemTextLog s; _spokenPhraseLog := v;
     _treeCache := _treeCache s;
     _disconnectDOMObserver := _disconnectDOMObserver s;
     _boundHandleFocusChange := _boundHandleFocusChange s |}.

Definition set_treeCache (v : option (list AccessibilityNode)) (s : Virtual) :=
  {| _activeNode := _activeNode s; _container := _container s;
     _cursor := _cursor s;
     _itemTextLog := _itemTextLog s; _spokenPhraseLog := _spokenPhraseLog s;
     _treeCache := v;
     _disconnectDOMObserver := _disconnectDOMObserver s;
     _boundHandleFocusChange := _boundHandleFocusChange s |}.

Definition set_disconnectDOMObserver (v : bool) (s : Virtual) :=
  {| _activeNode := _activeNode s; _container := _container s;
     _cursor := _cursor s;
     _itemTextLog := _itemTextLog s; _spokenPhraseLog := _spokenPhraseLog s;
     _treeCache := _treeCache s;
     _disconnectDOMObserver := v;
     _boundHandleFocusChange := _boundHandleFocusChange s |}.

Definition set_boundHandleFocusChange (v : bool) (s : Virtual) :=
  {| _activeNode := _activeNode s; _container := _container s;
     _cursor := _cursor s;
     _itemTextLog := _itemTextLog s; _spokenPhraseLog := _spokenPhraseLog s;
     _treeCache := _treeCache s;
     _disconnectDOMObserver := _disconnectDOMObserver s;
     _boundHandleFocusChange := v |}.

(** ** Methods as state transformers that may throw

    A method runs on the engine's fields and ends normally with a value or
    abruptly with an error; the fields as they are at that point are kept in
    both cases.  [await tick()] only orders a method after the host's pending
    notifications, which are the handlers below run as steps of their own. *)
Definition M (A : Type) : Type := Virtual -> Completion A * Virtual.

Definition ret {A} (a : A) : M A := fun s => (Normal a, s).

Definition throw {A} (e : Error) : M A := fun s => (Throw e, s).

Definition bind {A B} (m : M A) (k : A -> M B) : M B :=
  fun s =>
    match m s with
    | (Normal a, s') => k a s'
    | (Throw e, s') => (Throw e, s')
    end.

Definition get : M Virtual := fun s => (Normal s, s).

Definition modify (f : Virtual -> Virtual) : M unit :=
  fun s => (Normal tt, f s).

Notation "'let*' x ':=' m 'in' k" := (bind m (fun x => k))
  (at level 10, x name, m at level 100, k at level 200).
Notation "m ';;' k" := (bind m (fun _ => k))
  (at level 100, k at level 200, right associativity).

(** ** The keyboard command of [press] *)

(** The own keys of the two modifier tables of [Virtual.ts]. *)
Definition MacOSModifiers : list (string * string) :=
  [("Command", "command"); ("CommandLeft", "command");
   ("CommandRight", "command"); ("Meta", "command");
   ("Control", "control"); ("ControlLeft", "control");
   ("ControlRight", "control");
   ("Option", "option"); ("OptionLeft", "option"); ("OptionRight", "option");
   ("Alt", "option"); ("AltLeft", "option"); ("AltRight", "option");
   ("Shift", "shift"); ("ShiftLeft", "shift"); ("ShiftRight", "shift")].

Definition WindowsModifiers : list (string * string) :=
  [("Control", "control"); ("Alt", "alt"); ("Shift", "shift")].

(** The properties an object literal inherits from [Object.prototype]: a
    lookup of one of these names is not [undefined] either. *)
Definition objectPrototypeKeys : list string :=
  ["constructor"; "__defineGetter__"; "__defineSetter__"; "hasOwnProperty";
   "__lookupGetter__"; "__lookupSetter__"; "isPrototypeOf";
   "propertyIsEnumerable"; "toString"; "valueOf"; "__proto__";
   "toLocaleString"].

(** [typeof table[key] !== "undefined"] *)
Definition defined (table : list (string * string)) (key : string) : bool :=
  existsb (fun entry => String.eqb (fst entry) key) table
  || existsb (String.eqb key) objectPrototypeKeys.

Definition isModifier (rawKey : string) : bool :=
  defined MacOSModifiers rawKey || defined WindowsModifiers rawKey.

(** [s.replace(/c/g, "cc")] for a one-byte character [c]. *)
Fixpoint doubled (c : ascii) (s : string) : string :=
  match s with
  | EmptyString => EmptyString
  | String x s' =>
      if Ascii.eqb x c then String x (String x (doubled c s'))
      else String x (doubled c s')
  end.

(** [s.split(c)] for a one-byte separator: never the empty array. *)
Fixpoint split (c : ascii) (s : string) : list string :=
  match s with
  | EmptyString => [EmptyString]
  | String x s' =>
      if Ascii.eqb x c then EmptyString :: split c s'
      else
        match split c s' with
        | [] => [String x EmptyString]
        | part :: parts => String x part :: parts
        end
  end.

Definition keyboardCommand (key : string) : string :=
  let rawKeys := split "+" (doubled "[" (doubled "{" key)) in
  let modifiers := List.filter isModifier rawKeys in
  let keys := List.filter (fun rawKey => negb (isModifier rawKey)) rawKeys in
  String.concat ""
    (List.map (fun modifier => ("{" ++ modifier ++ ">}")%string) modifiers
     ++ List.map (fun key => ("{" ++ key ++ "}")%string) keys
     ++ List.map (fun modifier => ("{/" ++ modifier ++ "}")%string)
          (List.rev modifiers)).

(** ** [class Virtual]: private methods *)

Section Engine.
Context `{Collaborators}.

(** A call into the host or the input simulation: its error, if it throws,
    is the method's. *)
Definition host (answer : Completion unit) : M unit :=
  match answer with
  | Normal _ => ret tt
  | Throw e => throw e
  end.

Definition checkContainer : M unit :=
  let* s := get in
  match _container s with
  | None => throw ERR_VIRTUAL_NOT_STARTED
  | Some _ => ret tt
  end.

(** The overlay element is created only when the root has a document; it
    is recorded in [_cursor] before the container is asked to take it. *)
Definition createCursor (d : Document) (rootHasDocument : bool) : M unit :=
  if rootHasDocument then
    modify (set_cursor true) ;;
    let* s := get in
    match _container s with
    | Some container => host (appendOverlay (d container))
    | None => throw TypeError
    end
  else ret tt.

(** The geometry copied onto the overlay is not part of the fields. *)
Definition setActiveNode (accessibilityNode : AccessibilityNode) : M unit :=
  modify (set_activeNode (Some accessibilityNode)).

Definition getAccessibilityTree (d : Document) : M (list AccessibilityNode) :=
  let* s := get in
  match _treeCache s with
  | Some cached => ret cached
  | None =>
      let tree := createAccessibilityTree d (_container s) in
      let flat :=
        match _container s, tree with
        | Some container, Some tree => flattenTree d container tree
        | _, _ => []
        end in
      modify (set_treeCache (Some flat)) ;;
      ret flat
  end.

(** [this.#activeNode.parentDialog?.getAttribute("aria-modal") === "true"] *)
Definition isModal (d : Document) (a : AccessibilityNode) : bool :=
  match parentDialog a with
  | Some dialog => bool_decide (getAttribute (d dialog) "aria-modal" = Some "true")
  | None => false
  end.

Definition getModalAccessibilityTree (d : Document)
  : M (list AccessibilityNode) :=
  let* tree := getAccessibilityTree d in
  let* s := get in
  match _activeNode s with
  | None => ret tree
  | Some active =>
      if negb (isModal d active) then ret tree
      else
        ret (List.filter
               (fun n => bool_decide (parentDialog active = parentDialog n))
               tree)
  end.

Definition invalidateTreeCache : M unit := modify (set_treeCache None).

Definition pushItemText (itemText : string) : M unit :=
  modify (fun s => set_itemTextLog (_itemTextLog s ++ [itemText]) s).

Definition pushSpokenPhrase (spokenPhrase : string) : M unit :=
  modify (fun s => set_spokenPhraseLog (_spokenPhraseLog s ++ [spokenPhrase]) s).

Definition spokenPhraseLogWithoutLiveRegions (s : Virtual) : list string :=
  List.filter
    (fun spokenPhrase =>
       negb (String.prefix LIVE_ASSERTIVE spokenPhrase)
       && negb (String.prefix LIVE_POLITE spokenPhrase))
    (_spokenPhraseLog s).

(** [accessibilityNode.parentDialog !== null &&
     accessibilityNode.parentDialog !== this.#activeNode?.parentDialog]:
    without an active node the right-hand side is [undefined], which no
    dialog reference equals. *)
Definition dialogChanged (accessibilityNode : AccessibilityNode) (s : Virtual)
  : bool :=
  bool_decide (parentDialog accessibilityNode <> None)
  && match _activeNode s with
     | None => true
     | Some active =>
         bool_decide (parentDialog accessibilityNode <> parentDialog active)
     end.

(** [tree.find(...)!] asserts that the dialog is an entry of the tree; where
    it is not, [getSpokenPhrase] receives [undefined] and reads a field of
    it, which is a [TypeError]. *)
Definition updateState (d : Document)
    (accessibilityNode : AccessibilityNode) (ignoreIfNoChange : bool)
  : M unit :=
  let* s := get in
  (if dialogChanged accessibilityNode s then
     let* tree := getAccessibilityTree d in
     match List.find
             (fun n => bool_decide (Some (node n) = parentDialog accessibilityNode))
             tree with
     | None => throw TypeError
     | Some parentDialogNode =>
         let spokenPhrase := getSpokenPhrase d parentDialogNode in
         let itemText := getItemText d parentDialogNode in
         pushItemText itemText ;;
         pushSpokenPhrase spokenPhrase
     end
   else ret tt) ;;
  setActiveNode accessibilityNode ;;
  let spokenPhrase := getSpokenPhrase d accessibilityNode in
  let itemText := getItemText d accessibilityNode in
  let* s := get in
  if ignoreIfNoChange
     && bool_decide (Some spokenPhrase = last (spokenPhraseLogWithoutLiveRegions s))
     && bool_decide (Some itemText = last (_itemTextLog s))
  then ret tt
  else
    pushItemText itemText ;;
    pushSpokenPhrase spokenPhrase.

(** The argument of [updateState] when it comes from [tree.at(i)!]: on
    [undefined] the first field access throws. *)
Definition updateStateAt (d : Document) (tree : list AccessibilityNode)
    (index : Z) (ignoreIfNoChange : bool) : M unit :=
  match at_ tree index with
  | None => throw TypeError
  | Some newActiveNode => updateState d newActiveNode ignoreIfNoChange
  end.

(** Handler of the host's [focusin] notification. *)
Definition handleFocusChange (d : Document) (target : option NodeRef)
  : M unit :=
  invalidateTreeCache ;;
  let* tree := getAccessibilityTree d in
  if (length tree =? 0)%nat then ret tt
  else
    match List.find (fun n => bool_decide (Some (node n) = target)) tree with
    | None => ret tt
    | Some newActiveNode => updateState d newActiveNode true
    end.

(** [forEach] pushes the announcements one at a time. *)
Definition announceLiveRegions (d : Document) (mutations : list MutationRecord)
  : M unit :=
  let* s := get in
  let container := _container s in
  fold_right
    (fun spokenPhrase rest => pushSpokenPhrase spokenPhrase ;; rest)
    (ret tt)
    (List.filter truthy
       (List.map (getLiveSpokenPhrase d container) mutations)).

(** The callback handed to [observeDOM] in [start]. *)
Definition onMutations (d : Document) (mutations : list MutationRecord)
  : M unit :=
  invalidateTreeCache ;;
  announceLiveRegions d mutations.

Definition sameIdentity (active n : AccessibilityNode) : bool :=
  bool_decide (accessibleDescription n = accessibleDescription active)
  && bool_decide (accessibleName n = accessibleName active)
  && bool_decide (accessibleValue n = accessibleValue active)
  && bool_decide (node n = node active)
  && bool_decide (role n = role active)
  && bool_decide (spokenRole n = spokenRole active).

(** Without an active node every comparison is against [undefined]. *)
Definition getCurrentIndex (s : Virtual) (tree : list AccessibilityNode) : Z :=
  findIndex
    (fun n =>
       match _activeNode s with
       | None => false
       | Some active => sameIdentity active n
       end)
    tree.

Definition getCurrentIndexByNode (s : Virtual) (tree : list AccessibilityNode)
  : Z :=
  findIndex
    (fun n =>
       match _activeNode s with
       | None => false
       | Some active => bool_decide (node n = node active)
       end)
    tree.

Definition refreshState (d : Document) (ignoreIfNoChange : bool) : M unit :=
  invalidateTreeCache ;;
  let* tree := getAccessibilityTree d in
  let* s := get in
  let currentIndex := getCurrentIndexByNode s tree in
  updateStateAt d tree currentIndex ignoreIfNoChange.

(** ** [class Virtual]: public methods *)

(** [start]: [d] is the document as the first synthesis reads it. *)
Definition start (d : Document) (container : option NodeRef)
    (displayCursor rootHasDocument : bool) : M unit :=
  match container with
  | None => throw ERR_VIRTUAL_MISSING_CONTAINER
  | Some _ =>
      modify (set_container container) ;;
      (if displayCursor then createCursor d rootHasDocument else ret tt) ;;
      modify (set_disconnectDOMObserver true) ;;
      let* tree := getAccessibilityTree d in
      match tree with
      | [] => ret tt
      | first :: _ =>
          modify (set_boundHandleFocusChange true) ;;
          updateState d first false
      end
  end.

(** The observer is disconnected and the listener removed on the host's
    side; the field [_disconnectDOMObserver] itself is left as it is.  With
    an overlay, the container is asked to remove it before any field is
    reset: [d] is the document at that point. *)
Definition stop (d : Document) : M unit :=
  invalidateTreeCache ;;
  (let* s := get in
   if _cursor s then
     match _container s with
     | Some container => host (removeOverlay (d container))
     | None => ret tt
     end ;;
     modify (set_cursor false)
   else ret tt) ;;
  modify (set_activeNode None) ;;
  modify (set_container None) ;;
  modify (set_itemTextLog []) ;;
  modify (set_spokenPhraseLog []) ;;
  modify (set_boundHandleFocusChange false).

Definition previous (d : Document) : M unit :=
  checkContainer ;;
  let* tree := getModalAccessibilityTree d in
  if (length tree =? 0)%nat then ret tt
  else
    let* s := get in
    let currentIndex := getCurrentIndex s tree in
    let nextIndex := if currentIndex =? -1 then 0 else currentIndex - 1 in
    updateStateAt d tree nextIndex false.

Definition next (d : Document) : M unit :=
  checkContainer ;;
  let* tree := getModalAccessibilityTree d in
  if (length tree =? 0)%nat then ret tt
  else
    let* s := get in
    let currentIndex := getCurrentIndex s tree in
    let nextIndex :=
      if (currentIndex =? -1) || (currentIndex =? Z.of_nat (length tree) - 1)
      then 0
      else currentIndex + 1 in
    updateStateAt d tree nextIndex false.

(** [act], [click], [press] and [type] hand the interaction to the
    input-simulation collaborator, which acts on the host document and may
    reject; the engine's fields change only through the handlers above and,
    for [press] and [type], through [refreshState], which reads the document
    [d] that the interaction has left. *)
Definition act : M unit :=
  checkContainer ;;
  let* s := get in
  match _activeNode s with
  | None => ret tt
  | Some active => host (userEventClick active)
  end.

Definition interact : M unit := checkContainer.

Definition stopInteracting : M unit := checkContainer.

(** [#focusActiveElement] focuses the element of the active node before the
    keys are sent; a focus notification that this or the keys trigger is a
    call of [handleFocusChange] of its own. *)
Definition press (d : Document) (key : string) : M unit :=
  checkContainer ;;
  let* s := get in
  match _activeNode s with
  | None => ret tt
  | Some _ =>
      host (userEventKeyboard (keyboardCommand key)) ;;
      refreshState d true
  end.

Definition type (d : Document) (text : string) : M unit :=
  checkContainer ;;
  let* s := get in
  match _activeNode s with
  | None => ret tt
  | Some active =>
      host (userEventType active text) ;;
      refreshState d true
  end.

Definition perform (d : Document) (command : string) (options : CommandOptions)
  : M unit :=
  checkContainer ;;
  let* tree := getModalAccessibilityTree d in
  if (length tree =? 0)%nat then ret tt
  else
    let* s := get in
    let currentIndex := getCurrentIndex s tree in
    match commands command with
    | Some run =>
        match run d options (_container s) currentIndex tree with
        | None => ret tt
        | Some nextIndex => updateStateAt d tree nextIndex false
        end
    | None => if uncallable command then throw TypeError else ret tt
    end.

(** [button[0].toUpperCase()] throws on the empty string and
    [key.repeat(clickCount)] on a negative count; what [repeat] and
    [userEvent.pointer] do with the other counts is the collaborator's
    answer. *)
Definition click (button : string) (clickCount : Z) : M unit :=
  checkContainer ;;
  let* s := get in
  match _activeNode s with
  | None => ret tt
  | Some active =>
      if negb (truthy button) then throw TypeError
      else if clickCount <? 0 then throw RangeError
      else host (userEventPointer active button clickCount)
  end.

Definition lastSpokenPhrase : M string :=
  checkContainer ;;
  let* s := get in
  ret (default "" (last (_spokenPhraseLog s))).

Definition itemText : M string :=
  checkContainer ;;
  let* s := get in
  ret (default "" (last (_itemTextLog s))).

Definition spokenPhraseLog : M (list string) :=
  checkContainer ;;
  let* s := get in
  ret (_spokenPhraseLog s).

Definition itemTextLog : M (list string) :=
  checkContainer ;;
  let* s := get in
  ret (_itemTextLog s).

Definition clearSpokenPhraseLog : M unit :=
  checkContainer ;;
  modify (set_spokenPhraseLog []).

Definition clearItemTextLog : M unit :=
  checkContainer ;;
  modify (set_itemTextLog []).

(** The cursor, navigation and log operations of the public surface, and
    what a call answers. *)
Inductive Operation :=
| Next
| Previous
| Act
| Press (key : string)
| Type_ (text : string)
| Click (button : string) (clickCount : Z)
| Perform (command : string) (options : CommandOptions)
| Interact
| StopInteracting
| LastSpokenPhrase
| ItemText
| SpokenPhraseLog
| ItemTextLog
| ClearSpokenPhraseLog
| ClearItemTextLog.

Inductive Value :=
| Undefined
| Str (s : string)
| Log (l : list string).

Definition void (m : M unit) : M Value := m ;; ret Undefined.

Definition call (d : Document) (op : Operation) : M Value :=
  match op with
  | Next => void (next d)
  | Previous => void (previous d)
  | Act => void act
  | Press key => void (press d key)
  | Type_ text => void (type d text)
  | Click button clickCount => void (click button clickCount)
  | Perform command options => void (perform d command options)
  | Interact => void interact
  | StopInteracting => void stopInteracting
  | LastSpokenPhrase => let* p := lastSpokenPhrase in ret (Str p)
  | ItemText => let* t := itemText in ret (Str t)
  | SpokenPhraseLog => let* l := spokenPhraseLog in ret (Log l)
  | ItemTextLog => let* l := itemTextLog in ret (Log l)
  | ClearSpokenPhraseLog => void clearSpokenPhraseLog
  | ClearItemTextLog => void clearItemTextLog
  end.

(** [n] calls of [next] in a row over the same document. *)
Fixpoint nextTimes (n : nat) (d : Document) : M unit :=
  match n with
  | O => ret tt
  | S n' => next d ;; nextTimes n' d
  end.

End Engine.

(** ** Vocabulary of the statements *)

Section Vocabulary.
Context `{Collaborators}.

(** What [#getAccessibilityTree] computes on a cache miss. *)
Definition synthesize (d : Document) (container : option NodeRef)
  : list AccessibilityNode :=
  match container, createAccessibilityTree d container with
  | Some c, Some tree => flattenTree d c tree
  | _, _ => []
  end.

(** The flattened sequence the engine works on: the cached one if there is
    a cache, a fresh synthesis otherwise. *)
Definition flattened (d : Document) (s : Virtual) : list AccessibilityNode :=
  match _treeCache s with
  | Some cached => cached
  | None => synthesize d (_container s)
  end.

(** The modal-scoped view of the flattened sequence. *)
Definition modalScoped (d : Document) (s : Virtual) : list AccessibilityNode :=
  match _activeNode s with
  | None => flattened d s
  | Some active =>
      if isModal d active
      then List.filter
             (fun n => bool_decide (parentDialog active = parentDialog n))
             (flattened d s)
      else flattened d s
  end.

(** The fields [#getCurrentIndex] compares. *)
Definition identity (n : AccessibilityNode)
  : string * string * string * NodeRef * string * string :=
  (accessibleDescription n, accessibleName n, accessibleValue n, node n,
   role n, spokenRole n).

(** Every dialog that an entry names as its [parentDialog] is itself the
    node of an entry: what the [!] after [tree.find] in [#updateState]
    takes for granted. *)
Definition dialogsResolve (tree : list AccessibilityNode) : bool :=
  forallb
    (fun n =>
       match parentDialog n with
       | None => true
       | Some dialog => existsb (fun m => bool_decide (node m = dialog)) tree
       end)
    tree.

(** A mutation qualifies when the live-region watcher has an announcement
    for it. *)
Definition qualifying (d : Document) (container : option NodeRef)
    (mutation : MutationRecord) : bool :=
  truthy (getLiveSpokenPhrase d container mutation).

(** Both logs extended by one pair. *)
Definition logged (spokenPhrase itemText : string) (s : Virtual) : Virtual :=
  set_spokenPhraseLog (_spokenPhraseLog s ++ [spokenPhrase])
    (set_itemTextLog (_itemTextLog s ++ [itemText]) s).

(** The fields once [#getAccessibilityTree] has run. *)
Definition cached (d : Document) (s : Virtual) : Virtual :=
  set_treeCache (Some (flattened d s)) s.

(** The test of [#updateState] that suppresses the append of an unchanged
    pair. *)
Definition unchanged (d : Document) (n : AccessibilityNode) (s : Virtual)
  : bool :=
  bool_decide (Some (getSpokenPhrase d n)
               = last (spokenPhraseLogWithoutLiveRegions s))
  && bool_decide (Some (getItemText d n) = last (_itemTextLog s)).

(** The second half of [#updateState]: the node becomes active and its
    pair is appended unless suppressed. *)
Definition land (d : Document) (n : AccessibilityNode) (ignore : bool)
    (s : Virtual) : Virtual :=
  let s1 := set_activeNode (Some n) s in
  if ignore && unchanged d n s1 then s1
  else logged (getSpokenPhrase d n) (getItemText d n) s1.

(** The entry of the dialog that [#updateState] announces. *)
Definition findDialog (d : Document) (n : AccessibilityNode) (s : Virtual)
  : option AccessibilityNode :=
  List.find (fun m => bool_decide (Some (node m) = parentDialog n))
    (flattened d s).

(** What the live-region watcher leaves behind for a batch: one entry per
    qualifying mutation, in batch order, at the end of the spoken-phrase
    log, and nothing else touched in the cursor's state. *)
Definition announces (d : Document) (mutations : list MutationRecord)
    (s : Virtual) (out : Completion unit * Virtual) : Prop :=
  fst out = Normal tt
  /\ _spokenPhraseLog (snd out)
     = _spokenPhraseLog s
       ++ List.map (getLiveSpokenPhrase d (_container s))
            (List.filter (qualifying d (_container s)) mutations)
  /\ _itemTextLog (snd out) = _itemTextLog s
  /\ _activeNode (snd out) = _activeNode s.

(** The cursor of [s1] stands on entry [j] of the modal-scoped sequence of
    [s], over the same flattened sequence. *)
Definition stands (d : Document) (s s1 : Virtual) (j : nat) : Prop :=
  _container s1 <> None
  /\ flattened d s1 = flattened d s
  /\ exists x, modalScoped d s !! j = Some x /\ _activeNode s1 = Some x.

End Vocabulary.

(** What the container answers when [stop] asks it to remove the overlay;
    nothing is asked without an overlay or without a container. *)
Definition removal (d : Document) (s : Virtual) : Completion unit :=
  if _cursor s then
    match _container s with
    | Some container => removeOverlay (d container)
    | None => Normal tt
    end
  else Normal tt.

(** The fields after a [stop] that returned. *)
Definition stopped (s : Virtual) : Virtual := {|
  _activeNode := None;
  _container := None;
  _cursor := false;
  _itemTextLog := [];
  _spokenPhraseLog := [];
  _treeCache := None;
  _disconnectDOMObserver := _disconnectDOMObserver s;
  _boundHandleFocusChange := false;
|}.

(** The reasons, other than [aria-hidden], for which an element is hidden. *)
Definition display_none (n : Node) : Prop :=
  exists st, computedStyle n = Normal (Some st) /\ display st = "none".

Definition visibility_hidden (n : Node) : Prop :=
  exists st, computedStyle n = Normal (Some st) /\ visibility st = "hidden".

Definition unsupported (n : Node) : Prop :=
  exists e, computedStyle n = Throw e.

(** ** Sample documents *)

Module Sample.

Definition ELEMENT_NODE : Z := 1.

Definition helpers : DomHelpers := {|
  isElement n := nodeType n =? ELEMENT_NODE;
  getLocalName n := localName n;
  isDialogRole r :=
    bool_decide (r = "dialog") || bool_decide (r = "alertdialog");
|}.

(** Role data reduced to what the samples need: the role is the [role]
    attribute, or [generic]. *)
Definition roleData : RoleData := {|
  getAccessibleDescription _ := "";
  getAccessibleName _ := "";
  getAccessibleValue _ := "";
  getRole _ _ _ n :=
    let explicit := default "" (getAttribute n "role") in
    {| Resolved.explicitRole := explicit;
       Resolved.implicitRole := "generic";
       Resolved.role := if truthy explicit then explicit else "generic" |};
  presentationRoles := {[ "presentation"; "none" ]};
  roles :=
    {[ "button" := {| Role.allowedChildRoles := [];
                      Role.childrenPresentational := true |};
       "dialog" := {| Role.allowedChildRoles := [];
                      Role.childrenPresentational := false |} ]};
|}.

Definition element (name : string) (attrs : list (string * string)) : Node := {|
  nodeType := ELEMENT_NODE;
  localName := name;
  textContent := "";
  attributes := list_to_map attrs;
  hidden := false;
  tabbable := Normal [];
  computedStyle :=
    Normal (Some {| visibility := "visible"; display := "block" |});
  appendOverlay := Normal tt;
  removeOverlay := Normal tt;
|}.

(** [<div inert role="dialog" aria-modal="true">] *)
Definition inertDialog : Node :=
  element "div" [("inert", ""); ("role", "dialog"); ("aria-modal", "true")].

(** [<div aria-hidden="true">] around a link, on a host that computes
    styles. *)
Definition hiddenWrapper : Node := {|
  nodeType := ELEMENT_NODE;
  localName := "div";
  textContent := "";
  attributes := {[ "aria-hidden" := "true" ]};
  hidden := false;
  tabbable := Normal [7%positive];
  computedStyle :=
    Normal (Some {| visibility := "visible"; display := "block" |});
  appendOverlay := Normal tt;
  removeOverlay := Normal tt;
|}.

(** [<math aria-hidden="true">] around a link, on a host whose style
    computation throws on the element. *)
Definition mathWrapper : Node := {|
  nodeType := ELEMENT_NODE;
  localName := "math";
  textContent := "";
  attributes := {[ "aria-hidden" := "true" ]};
  hidden := false;
  tabbable := Normal [7%positive];
  computedStyle := Throw HostError;
  appendOverlay := Normal tt;
  removeOverlay := Normal tt;
|}.

(** [<math aria-hidden="true">] on a host that throws already while
    listing the tabbable descendants of the element. *)
Definition throwingWrapper : Node := {|
  nodeType := ELEMENT_NODE;
  localName := "math";
  textContent := "";
  attributes := {[ "aria-hidden" := "true" ]};
  hidden := false;
  tabbable := Throw HostError;
  computedStyle :=
    Normal (Some {| visibility := "visible"; display := "block" |});
  appendOverlay := Normal tt;
  removeOverlay := Normal tt;
|}.

(** Flattened entries are written down directly: the sample synthesizer
    looks the page up by its container. *)
Definition entry (ref : NodeRef) (dialog : option NodeRef)
    (spoken name : string) : AccessibilityNode := {|
  accessibleDescription := "";
  accessibleName := name;
  accessibleValue := "";
  allowedAccessibilityChildRoles := [];
  childrenPresentational := false;
  isExplicitPresentational := false;
  isInert := false;
  node := ref;
  parentDialog := dialog;
  role := spoken;
  spokenRole := spoken;
|}.

(** The closing boundary of a container: same node and role, spoken as
    "end of ...". *)
Definition closing (ref : NodeRef) (dialog : option NodeRef)
    (roleName : string) : AccessibilityNode := {|
  accessibleDescription := "";
  accessibleName := "";
  accessibleValue := "";
  allowedAccessibilityChildRoles := [];
  childrenPresentational := false;
  isExplicitPresentational := false;
  isInert := false;
  node := ref;
  parentDialog := dialog;
  role := roleName;
  spokenRole := ("end of " ++ roleName)%string;
|}.

(** Container 20: two buttons side by side. *)
Definition play : AccessibilityNode := entry 21 None "button" "Play".
Definition pause : AccessibilityNode := entry 22 None "button" "Pause".
Definition twoButtons : list AccessibilityNode := [play; pause].

(** Container 30: a document with a dialog (node 31) around one button. *)
Definition page : AccessibilityNode := entry 30 None "document" "".
Definition confirm : AccessibilityNode := entry 31 None "dialog" "Confirm".
Definition ok : AccessibilityNode := entry 32 (Some 31%positive) "button" "OK".
Definition endConfirm : AccessibilityNode := closing 31 None "dialog".
Definition endPage : AccessibilityNode := closing 30 None "document".
Definition dialogPage : list AccessibilityNode :=
  [page; confirm; ok; endConfirm; endPage].

(** Container 40: an "OK" button followed by a dialog (node 42) around
    another "OK" button. *)
Definition okOutside : AccessibilityNode := entry 41 None "button" "OK".
Definition prompt : AccessibilityNode := entry 42 None "dialog" "Prompt".
Definition okInside : AccessibilityNode :=
  entry 43 (Some 42%positive) "button" "OK".
Definition twoOks : list AccessibilityNode :=
  [okOutside; prompt; okInside; closing 42 None "dialog"].

Definition pages (container : NodeRef) : option (list AccessibilityNode) :=
  if bool_decide (container = 20%positive) then Some twoButtons
  else if bool_decide (container = 30%positive) then Some dialogPage
  else if bool_decide (container = 40%positive) then Some twoOks
  else None.

Definition joined (n : AccessibilityNode) : string :=
  if truthy (accessibleName n)
  then (if truthy (spokenRole n)
        then (spokenRole n ++ ", " ++ accessibleName n)%string
        else accessibleName n)
  else spokenRole n.

(** A mutation record reduced to the politeness of the region it falls in
    (empty outside live regions) and the text it adds. *)
Definition announcement (mutation : string * string) : string :=
  if truthy (fst mutation) then (fst mutation ++ ": " ++ snd mutation)%string else "".

Definition collaborators : Collaborators := {|
  AccessibilityNodeTree := list AccessibilityNode;
  createAccessibilityTree _ container := container ≫= pages;
  flattenTree _ _ tree := tree;
  getSpokenPhrase _ n := joined n;
  getItemText _ n := accessibleName n;
  MutationRecord := string * string;
  getLiveSpokenPhrase _ _ mutation := announcement mutation;
  LIVE_ASSERTIVE := "assertive";
  LIVE_POLITE := "polite";
  CommandOptions := unit;
  commands name :=
    if bool_decide (name = "moveToNextLandmark")
    then Some (fun _ _ _ _ tree =>
                 let i := findIndex
                            (fun n => bool_decide (role n = "navigation")) tree in
                 if i <? 0 then None else Some i)
    else None;
  uncallable name := bool_decide (name = "__proto__");
  userEventClick _ := Normal tt;
  userEventKeyboard command :=
    if bool_decide (command = "{}") then Throw HostError else Normal tt;
  userEventType _ _ := Normal tt;
  userEventPointer _ _ _ := Normal tt;
|}.

(** Two hosts: in [modalDocument] the dialogs carry [aria-modal="true"], in
    [plainDocument] they are [<dialog open>] elements without it. *)
Definition isDialogRef (r : NodeRef) : bool :=
  bool_decide (r = 31%positive) || bool_decide (r = 42%positive).

Definition modalDocument : Document :=
  fun r =>
    if isDialogRef r
    then element "div" [("role", "dialog"); ("aria-modal", "true")]
    else element "div" [].

Definition plainDocument : Document :=
  fun r =>
    if isDialogRef r then element "dialog" [("open", "")]
    else element "div" [].

(** The engine after [start] on a container, and after further calls. *)
Definition started (d : Document) (container : NodeRef) : Virtual :=
  snd (@start collaborators d (Some container) false false newVirtual).

Definition after {A} (m : M A) (s : Virtual) : Virtual := snd (m s).

(** Two buttons, cursor on the first. *)
Definition onPlay : Virtual := started plainDocument 20.

(** The dialog page on either host, cursor on the document. *)
Definition onPage : Virtual := started plainDocument 30.
Definition onModalPage : Virtual := started modalDocument 30.

(** The same after one and two calls of [next]: cursor on the dialog, then
    on the button inside it. *)
Definition onConfirm : Virtual :=
  after (@next collaborators plainDocument) onPage.
Definition onOk : Virtual :=
  after (@next collaborators plainDocument) onConfirm.
Definition onModalOk : Virtual :=
  after (@nextTimes collaborators 2 modalDocument) onModalPage.

(** Cursor on the "OK" button outside the dialog. *)
Definition onOkOutside : Virtual := started plainDocument 40.

End Sample.

(** ** Further vocabulary: sequences of calls and the growth of the logs *)

Section Sequences.
Context `{Collaborators}.

(** [n] calls of [previous] in a row over the same document. *)
Fixpoint previousTimes (n : nat) (d : Document) : M unit :=
  match n with
  | O => ret tt
  | S n' => previous d ;; previousTimes n' d
  end.

(** A script of calls whose outcomes the caller does not look at: each call
    runs on the fields the one before has left, also after a throw. *)
Definition script (d : Document) (ops : list Operation) (s : Virtual)
  : Virtual :=
  fold_left (fun s op => snd (call d op s)) ops s.

(** The calls that move the cursor through the modal-scoped sequence. *)
Definition isNavigation (op : Operation) : bool :=
  match op with
  | Next | Previous | Perform _ _ => true
  | _ => false
  end.

(** The calls that empty a log. *)
Definition isClear (op : Operation) : bool :=
  match op with
  | ClearSpokenPhraseLog | ClearItemTextLog => true
  | _ => false
  end.

(** [s'] has the logs of [s] with the same number of entries appended to
    each. *)
Definition grownInStep (s s' : Virtual) : Prop :=
  exists spoken texts,
    _spokenPhraseLog s' = _spokenPhraseLog s ++ spoken
    /\ _itemTextLog s' = _itemTextLog s ++ texts
    /\ length spoken = length texts.

(** A method that, whatever its outcome, leaves the logs grown in step. *)
Definition grows {A} (m : M A) : Prop :=
  forall s, grownInStep s (snd (m s)).

(** The calls that answer from the logs. *)
Definition readsLogs (op : Operation) : bool :=
  match op with
  | LastSpokenPhrase | ItemText | SpokenPhraseLog | ItemTextLog => true
  | _ => false
  end.

(** Two engines that agree on everything the cursor depends on: active node,
    container and cached tree. *)
Definition sameCursor (s1 s2 : Virtual) : Prop :=
  _activeNode s1 = _activeNode s2
  /\ _container s1 = _container s2
  /\ _treeCache s1 = _treeCache s2.

(** A method whose outcome and cursor do not depend on the logs. *)
Definition blind {A} (m : M A) : Prop :=
  forall s1 s2,
    sameCursor s1 s2 ->
    fst (m s1) = fst (m s2) /\ sameCursor (snd (m s1)) (snd (m s2)).

End Sequences.

(** ** Further vocabulary: blank text *)

(** Every character of [s] is white space. *)
Fixpoint allWhiteSpace (s : string) : bool :=
  match s with
  | EmptyString => true
  | String c s' => isWhiteSpace c && allWhiteSpace s'
  end.

(** Every character of [s] is a one-byte code point, where the white space
    of [trim] is exactly tab, line feed, vertical tab, form feed, carriage
    return and space. *)
Fixpoint isAscii (s : string) : bool :=
  match s with
  | EmptyString => true
  | String c s' => (nat_of_ascii c <? 128)%nat && isAscii s'
  end.

(** ** [getTabbable] *)

(** The structure of the host document as [getTabbable] reads it: parent and
    sibling links between elements, [container.contains(element)], and the
    answer of the [tabbable] library's [isTabbable], which like [tabbable]
    may throw. *)
Record DomTree := {
  parentElement : NodeRef -> option NodeRef;
  previousElementSibling : NodeRef -> option NodeRef;
  nextElementSibling : NodeRef -> option NodeRef;
  contains : NodeRef -> NodeRef -> bool;
  isTabbable : NodeRef -> Completion bool;
}.

(** The property name that [getTabbable] is bound to. *)
Inductive Method :=
| PreviousElementSibling
| NextElementSibling.

(** [candidate[method]] *)
Definition sibling (t : DomTree) (method : Method) (candidate : NodeRef)
  : option NodeRef :=
  match method with
  | PreviousElementSibling => previousElementSibling t candidate
  | NextElementSibling => nextElementSibling t candidate
  end.

(** The [while (candidate)] loop: [Some (Normal (Some r))] when the loop
    returns [r], [Some (Normal None)] when it runs off the last sibling,
    [Some (Throw e)] when [tabbable] throws, and [None] when [fuel] links
    have been followed without reaching an end. *)
Fixpoint scanSiblings (d : Document) (t : DomTree) (fuel : nat)
    (method : Method) (candidate : option NodeRef)
  : option (Completion (option NodeRef)) :=
  match candidate with
  | None => Some (Normal None)
  | Some c =>
      match fuel with
      | O => None
      | S fuel' =>
          match tabbable (d c) with
          | Throw e => Some (Throw e)
          | Normal tabbableElements =>
              if (0 <? length tabbableElements)%nat
              then Some (Normal (last tabbableElements))
              else scanSiblings d t fuel' method (sibling t method c)
          end
      end
  end.

(** [getTabbable(method, element, container)]; [None] when [fuel] is not
    enough for the links of the document. *)
Fixpoint getTabbable (d : Document) (t : DomTree) (fuel : nat)
    (method : Method) (element : option NodeRef) (container : NodeRef)
  : option (Completion (option NodeRef)) :=
  match fuel with
  | O => None
  | S fuel' =>
      match element with
      | None => Some (Normal None)
      | Some e =>
          if bool_decide (parentElement t e = Some container)
          then Some (Normal None)
          else if negb (contains t container e) then Some (Normal None)
          else
            match isTabbable t e with
            | Throw x => Some (Throw x)
            | Normal true => Some (Normal (Some e))
            | Normal false =>
                match scanSiblings d t fuel' method (sibling t method e) with
                | Some (Normal None) =>
                    getTabbable d t fuel' method (parentElement t e) container
                | outcome => outcome
                end
            end
      end
  end.

Definition getPreviousTabbable (d : Document) (t : DomTree) (fuel : nat) :=
  getTabbable d t fuel PreviousElementSibling.

Definition getNextTabbable (d : Document) (t : DomTree) (fuel : nat) :=
  getTabbable d t fuel NextElementSibling.

(** [a] is [e] or one of its ancestors. *)
Inductive ancestorOrSelf (t : DomTree) (e : NodeRef) : NodeRef -> Prop :=
| ancestor_self : ancestorOrSelf t e e
| ancestor_parent a p :
    ancestorOrSelf t e a -> parentElement t a = Some p -> ancestorOrSelf t e p.

(** [c] comes after [a] along [method]: its sibling, or a later one. *)
Inductive laterSibling (t : DomTree) (method : Method) (a : NodeRef)
  : NodeRef -> Prop :=
| later_first c : sibling t method a = Some c -> laterSibling t method a c
| later_next b c :
    laterSibling t method a b -> sibling t method b = Some c ->
    laterSibling t method a c.

(** A document whose parent and sibling links are those of a finite tree:
    each link leads to a node of smaller rank. *)
Definition finiteTree (t : DomTree) : Prop :=
  exists (depth : NodeRef -> nat) (position : Method -> NodeRef -> nat),
    (forall e p, parentElement t e = Some p -> (depth p < depth e)%nat)
    /\ (forall method e c, sibling t method e = Some c ->
                           (position method c < position method e)%nat).

(** ** A sample document for [getTabbable] *)

Module TabSample.

(** Container 1 holds element 2, whose children are, in order, a paragraph 3
    around the links 8 and 9, an empty paragraph 4 and a paragraph 5. *)
Definition structure : DomTree := {|
  parentElement e :=
    if bool_decide (e = 2%positive) then Some 1%positive
    else if bool_decide (e = 3%positive) || bool_decide (e = 4%positive)
            || bool_decide (e = 5%positive) then Some 2%positive
    else if bool_decide (e = 8%positive) || bool_decide (e = 9%positive)
    then Some 3%positive
    else None;
  previousElementSibling e :=
    if bool_decide (e = 5%positive) then Some 4%positive
    else if bool_decide (e = 4%positive) then Some 3%positive
    else if bool_decide (e = 9%positive) then Some 8%positive
    else None;
  nextElementSibling e :=
    if bool_decide (e = 3%positive) then Some 4%positive
    else if bool_decide (e = 4%positive) then Some 5%positive
    else if bool_decide (e = 8%positive) then Some 9%positive
    else None;
  contains container e :=
    bool_decide (container = 1%positive)
    && (Pos.leb e 5 || bool_decide (e = 8%positive)
        || bool_decide (e = 9%positive));
  isTabbable e :=
    Normal (bool_decide (e = 8%positive) || bool_decide (e = 9%positive));
|}.

Definition document : Document :=
  fun r => {|
    nodeType := 1;
    localName := "p";
    textContent := "";
    attributes := ∅;
    hidden := false;
    tabbable :=
      Normal (if bool_decide (r = 3%positive) then [8%positive; 9%positive]
              else []);
    computedStyle := Normal None;
    appendOverlay := Normal tt;
    removeOverlay := Normal tt;
  |}.

Definition depth (e : NodeRef) : nat :=
  if bool_decide (e = 2%positive) then 1
  else if bool_decide (e = 3%positive) || bool_decide (e = 4%positive)
          || bool_decide (e = 5%positive) then 2
  else if bool_decide (e = 8%positive) || bool_decide (e = 9%positive) then 3
  else 0.

Definition position (method : Method) (e : NodeRef) : nat :=
  match method with
  | PreviousElementSibling => Pos.to_nat e
  | NextElementSibling => 10 - Pos.to_nat e
  end.

End TabSample.

(** ** A sample host whose tree follows the document *)

Module LiveSample.

(** The pages of [Sample], synthesized only while the container is not
    hidden. *)
Definition collaborators : Collaborators := {|
  AccessibilityNodeTree := list AccessibilityNode;
  createAccessibilityTree d container :=
    container ≫= fun c => if hidden (d c) then None else Sample.pages c;
  flattenTree _ _ tree := tree;
  getSpokenPhrase _ n := Sample.joined n;
  getItemText _ n := accessibleName n;
  MutationRecord := string * string;
  getLiveSpokenPhrase _ _ mutation := Sample.announcement mutation;
  LIVE_ASSERTIVE := "assertive";
  LIVE_POLITE := "polite";
  CommandOptions := unit;
  commands name :=
    if bool_decide (name = "moveToNextDialog")
    then Some (fun _ _ _ _ tree =>
                 let i := findIndex
                            (fun n => bool_decide (role n = "dialog")) tree in
                 if i <? 0 then None else Some i)
    else None;
  uncallable name := bool_decide (name = "__proto__");
  userEventClick _ := Normal tt;
  userEventKeyboard command :=
    if bool_decide (command = "{}") then Throw HostError else Normal tt;
  userEventType _ _ := Normal tt;
  userEventPointer _ _ _ := Normal tt;
|}.

(** The document while everything is hidden, and once it is shown. *)
Definition hiddenDocument : Document :=
  fun r => {|
    nodeType := 1;
    localName := "div";
    textContent := "";
    attributes := ∅;
    hidden := true;
    tabbable := Normal [];
    computedStyle := Normal None;
    appendOverlay := Normal tt;
    removeOverlay := Normal tt;
  |}.

Definition shownDocument : Document := Sample.plainDocument.

(** [start] on the hidden container 20, then the document is shown and the
    observer's callback runs. *)
Definition startedHidden : Virtual :=
  snd (@start collaborators hiddenDocument (Some 20%positive) false false
         newVirtual).

Definition shown : Virtual :=
  snd (@onMutations collaborators shownDocument [] startedHidden).

(** [start] on the dialog page, shown. *)
Definition onPage : Virtual :=
  snd (@start collaborators shownDocument (Some 30%positive) false false
         newVirtual).

(** A second [start], on the two buttons, without a [stop] in between. *)
Definition startedTwice : Completion unit * Virtual :=
  @start collaborators shownDocument (Some 20%positive) false false onPage.

End LiveSample.

(** ** Further sample states and nodes *)

Module MoreSample.

(** [start] on a container that has no page: the tree is empty. *)
Definition onNothing : Virtual :=
  Sample.started Sample.plainDocument 99.


(** [onPage] with the spoken-phrase log cleared. *)
Definition onPageCleared : Virtual :=
  Sample.after (@clearSpokenPhraseLog) Sample.onPage.

(** A text node of blanks and a text node with a word. *)
Definition textNode (text : string) : Node := {|
  nodeType := TEXT_NODE;
  localName := "";
  textContent := text;
  attributes := ∅;
  hidden := false;
  tabbable := Normal [];
  computedStyle := Normal None;
  appendOverlay := Normal tt;
  removeOverlay := Normal tt;
|}.

(** The hosts of the overlay scenarios.  On [overlaidDocument] the overlay
    hangs under container 20, so container 30 throws when asked to remove
    it; node 50 is a text node, which takes no child at all. *)
Definition overlaidDocument : Document :=
  fun r =>
    if bool_decide (r = 30%positive) then {|
      nodeType := Sample.ELEMENT_NODE;
      localName := "div";
      textContent := "";
      attributes := ∅;
      hidden := false;
      tabbable := Normal [];
      computedStyle := Normal None;
      appendOverlay := Normal tt;
      removeOverlay := Throw HostError;
    |}
    else if bool_decide (r = 50%positive) then {|
      nodeType := TEXT_NODE;
      localName := "";
      textContent := "Pause";
      attributes := ∅;
      hidden := false;
      tabbable := Normal [];
      computedStyle := Normal None;
      appendOverlay := Throw HostError;
      removeOverlay := Throw HostError;
    |}
    else Sample.plainDocument r.

(** [start] on the two buttons with the overlay displayed, and a second
    [start], on the dialog page, without a [stop] in between. *)
Definition onPlayOverlaid : Virtual :=
  snd (@start Sample.collaborators overlaidDocument (Some 20%positive)
         true true newVirtual).

Definition movedOn : Virtual :=
  snd (@start Sample.collaborators overlaidDocument (Some 30%positive)
         false false onPlayOverlaid).

End MoreSample.

(** * Properties *)

(** ** Classifier *)

Section ClassifierFacts.
Context `{DomHelpers} `{RoleData}.

Lemma hasAttribute_carries (n : Node) (name : string) :
  hasAttribute n name = true <-> carries n name.
Proof.
  unfold hasAttribute, carries. rewrite bool_decide_eq_true.
  unfold is_Some. reflexivity.
Qed.

Lemma isModalDialog_spec (n : Node) (r : string) :
  isDialogRole r && hasAttribute n "aria-modal"
  || bool_decide (getLocalName n = "dialog") && hasAttribute n "open" = true
  <-> modal_dialog n r.
Proof.
  unfold modal_dialog.
  rewrite orb_true_iff, !andb_true_iff, bool_decide_eq_true.
  rewrite !hasAttribute_carries. tauto.
Qed.

Lemma getIsInert_spec (inherited : bool) (n : Node) (r : string) :
  isElement n = true ->
  (getIsInert inherited n r = true
   <-> carries n "inert" \/ (inherited = true /\ ~ modal_dialog n r)).
Proof.
  intros Helem. unfold getIsInert. rewrite Helem. cbn [negb].
  rewrite orb_true_iff, andb_true_iff, negb_true_iff.
  rewrite hasAttribute_carries.
  rewrite <- isModalDialog_spec, not_true_iff_false.
  reflexivity.
Qed.

(** C7. For every document element, the classifier's [isInert] is [true]
    exactly when the element carries an [inert] attribute, or the inherited
    inert flag is set and the element is not a modal dialog; a modal dialog
    being a [dialog] element that carries [open], or an element whose
    resolved role is a dialog role and that carries [aria-modal]. *)
Theorem getIsInert_element
    (allowed : list string) (inherited presentational : bool) (n : Node) :
  isElement n = true ->
  let data := getNodeAccessibilityData allowed inherited presentational n in
  NodeAccessibilityData.isInert data = true
  <-> carries n "inert"
      \/ (inherited = true
          /\ ~ ((getLocalName n = "dialog" /\ carries n "open")
                \/ (isDialogRole (NodeAccessibilityData.role data) = true
                    /\ carries n "aria-modal"))).
Proof.
  intros Helem data.
  change (NodeAccessibilityData.isInert data)
    with (getIsInert inherited n (NodeAccessibilityData.role data)).
  apply getIsInert_spec, Helem.
Qed.

End ClassifierFacts.

Lemma getIsInert_element_witness :
  @isElement Sample.helpers Sample.inertDialog = true
  /\ (NodeAccessibilityData.isInert
        (@getNodeAccessibilityData Sample.helpers Sample.roleData
           [] false false Sample.inertDialog) = true
      <-> carries Sample.inertDialog "inert"
          \/ (false = true
              /\ ~ ((@getLocalName Sample.helpers Sample.inertDialog = "dialog"
                     /\ carries Sample.inertDialog "open")
                    \/ (@isDialogRole Sample.helpers "dialog" = true
                        /\ carries Sample.inertDialog "aria-modal")))).
Proof.
  split; [reflexivity|].
  apply (@getIsInert_element Sample.helpers Sample.roleData); reflexivity.
Defined.

(** ** Hidden from the accessibility tree *)

Section HiddenFacts.
Context `{DomHelpers}.

Lemma styleHides_spec (n : Node) :
  styleHides n = true
  <-> display_none n \/ visibility_hidden n \/ unsupported n.
Proof.
  unfold styleHides, display_none, visibility_hidden, unsupported.
  destruct (computedStyle n) as [[st|]|e].
  - rewrite orb_true_iff, !bool_decide_eq_true. split.
    + intros [Hv|Hd]; [right; left | left]; exists st; auto.
    + intros [[st' [E Hd]]|[[st' [E Hv]]|[e E]]];
        try discriminate; injection E as <-; auto.
  - split; [discriminate|].
    intros [[st [E _]]|[[st [E _]]|[e E]]]; discriminate.
  - split; [|reflexivity]. intros _. right; right. exists e. reflexivity.
Qed.

(** C8, as amended. An element carrying [aria-hidden="true"] is judged
    hidden when it has no tabbable descendants, and also when the host
    throws while listing them (an unsupported element). When it has some,
    the marker alone does not hide it: it is hidden exactly when it has the
    hidden attribute, its computed style is [display:none] or
    [visibility:hidden], or the host throws while computing a style for it
    (an unsupported element again). *)
Theorem aria_hidden_verdict (n : Node) (warned : bool) :
  isElement n = true ->
  nodeType n <> TEXT_NODE ->
  getAttribute n "aria-hidden" = Some "true" ->
  (tabbable n = Normal [] ->
   fst (isHiddenFromAccessibilityTree (Some n) warned) = true)
  /\ (forall e, tabbable n = Throw e ->
      fst (isHiddenFromAccessibilityTree (Some n) warned) = true)
  /\ (forall t ts, tabbable n = Normal (t :: ts) ->
      (fst (isHiddenFromAccessibilityTree (Some n) warned) = true
       <-> hidden n = true
           \/ display_none n \/ visibility_hidden n \/ unsupported n)).
Proof.
  intros Helem Htype Haria.
  unfold isHiddenFromAccessibilityTree.
  apply Z.eqb_neq in Htype. rewrite Htype, Helem, Haria. cbn [andb negb].
  rewrite bool_decide_eq_true_2 by reflexivity.
  split; [|split].
  - intros ->. destruct (hidden n); reflexivity.
  - intros e ->. destruct (hidden n); reflexivity.
  - intros t ts ->. cbn [length Nat.eqb].
    destruct (hidden n); cbn [fst].
    + split; auto.
    + rewrite styleHides_spec. split; [auto|].
      intros [E|E]; [discriminate|exact E].
Qed.

End HiddenFacts.

Lemma aria_hidden_verdict_witness :
  @isElement Sample.helpers Sample.hiddenWrapper = true
  /\ nodeType Sample.hiddenWrapper <> TEXT_NODE
  /\ getAttribute Sample.hiddenWrapper "aria-hidden" = Some "true"
  /\ (fst (@isHiddenFromAccessibilityTree Sample.helpers
             (Some Sample.hiddenWrapper) false) = true
      <-> hidden Sample.hiddenWrapper = true
          \/ display_none Sample.hiddenWrapper
          \/ visibility_hidden Sample.hiddenWrapper
          \/ unsupported Sample.hiddenWrapper)
  /\ @isElement Sample.helpers Sample.throwingWrapper = true
  /\ nodeType Sample.throwingWrapper <> TEXT_NODE
  /\ getAttribute Sample.throwingWrapper "aria-hidden" = Some "true"
  /\ fst (@isHiddenFromAccessibilityTree Sample.helpers
            (Some Sample.throwingWrapper) false) = true.
Proof.
  assert (Helem : @isElement Sample.helpers Sample.hiddenWrapper = true)
    by reflexivity.
  assert (Htype : nodeType Sample.hiddenWrapper <> TEXT_NODE)
    by (vm_compute; discriminate).
  assert (Haria : getAttribute Sample.hiddenWrapper "aria-hidden" = Some "true")
    by reflexivity.
  assert (Helem' : @isElement Sample.helpers Sample.throwingWrapper = true)
    by reflexivity.
  assert (Htype' : nodeType Sample.throwingWrapper <> TEXT_NODE)
    by (vm_compute; discriminate).
  assert (Haria' :
            getAttribute Sample.throwingWrapper "aria-hidden" = Some "true")
    by reflexivity.
  split; [exact Helem|]. split; [exact Htype|]. split; [exact Haria|].
  split.
  - apply (proj2 (proj2 (@aria_hidden_verdict Sample.helpers
                           Sample.hiddenWrapper false Helem Htype Haria))
             7%positive []).
    reflexivity.
  - split; [exact Helem'|]. split; [exact Htype'|]. split; [exact Haria'|].
    apply (proj1 (proj2 (@aria_hidden_verdict Sample.helpers
                           Sample.throwingWrapper false Helem' Htype' Haria'))
             HostError).
    reflexivity.
Defined.

(** C8, counterexample. An element with [aria-hidden="true"] and a tabbable
    descendant, without the hidden attribute and without a computed
    [display:none] or [visibility:hidden], is still judged hidden when the
    host throws on it. *)
Lemma aria_hidden_unsupported_element :
  @isElement Sample.helpers Sample.mathWrapper = true
  /\ getAttribute Sample.mathWrapper "aria-hidden" = Some "true"
  /\ tabbable Sample.mathWrapper = Normal [7%positive]
  /\ hidden Sample.mathWrapper = false
  /\ ~ display_none Sample.mathWrapper
  /\ ~ visibility_hidden Sample.mathWrapper
  /\ fst (@isHiddenFromAccessibilityTree Sample.helpers
            (Some Sample.mathWrapper) false) = true.
Proof.
  repeat split; try reflexivity.
  - intros [st [E _]]. discriminate E.
  - intros [st [E _]]. discriminate E.
Qed.

(** ** The engine: how the private methods run *)

Section EngineFacts.
Context `{Collaborators}.

Lemma getAccessibilityTree_run d s :
  getAccessibilityTree d s = (Normal (flattened d s), cached d s).
Proof.
  unfold getAccessibilityTree, cached, flattened, synthesize, bind, get.
  destruct s as [a c cu il sl [t|] ob bo]; cbn; [reflexivity|].
  destruct c as [c|]; [|reflexivity].
  destruct (createAccessibilityTree d (Some c)); reflexivity.
Qed.

Lemma getModalAccessibilityTree_run d s :
  getModalAccessibilityTree d s = (Normal (modalScoped d s), cached d s).
Proof.
  unfold getModalAccessibilityTree, bind.
  rewrite getAccessibilityTree_run. unfold get, modalScoped.
  cbn [cached set_treeCache _activeNode].
  destruct (_activeNode s) as [a|]; [|reflexivity].
  destruct (isModal d a); reflexivity.
Qed.

Lemma flattened_cached d s : flattened d (cached d s) = flattened d s.
Proof. reflexivity. Qed.

Lemma cached_cached d s : cached d (cached d s) = cached d s.
Proof. reflexivity. Qed.

Lemma updateState_same_dialog d n ignore s :
  dialogChanged n s = false ->
  updateState d n ignore s = (Normal tt, land d n ignore s).
Proof.
  intros Hsame. unfold updateState, bind, get. rewrite Hsame.
  unfold ret, setActiveNode, modify, land, unchanged.
  rewrite <- andb_assoc.
  destruct (ignore && _); reflexivity.
Qed.

Lemma updateState_new_dialog d n ignore s dialogNode :
  dialogChanged n s = true ->
  findDialog d n s = Some dialogNode ->
  updateState d n ignore s
  = (Normal tt,
     land d n ignore
       (logged (getSpokenPhrase d dialogNode) (getItemText d dialogNode)
          (cached d s))).
Proof.
  intros Hnew Hfind. unfold updateState, bind, get. rewrite Hnew.
  rewrite getAccessibilityTree_run. unfold findDialog in Hfind.
  rewrite Hfind.
  unfold ret, setActiveNode, pushItemText, pushSpokenPhrase, bind, modify,
    land, unchanged.
  rewrite <- andb_assoc.
  destruct (ignore && _); reflexivity.
Qed.

Lemma updateState_lost_dialog d n ignore s :
  dialogChanged n s = true ->
  findDialog d n s = None ->
  updateState d n ignore s = (Throw TypeError, cached d s).
Proof.
  intros Hnew Hfind. unfold updateState, bind, get. rewrite Hnew.
  rewrite getAccessibilityTree_run. unfold findDialog in Hfind.
  rewrite Hfind. reflexivity.
Qed.

End EngineFacts.

(** ** Operations outside a session *)

Section SessionFacts.
Context `{Collaborators}.

Lemma bind_throw {A B} (m : M A) (k : A -> M B) e s s' :
  m s = (Throw e, s') -> bind m k s = (Throw e, s').
Proof. intros Hm. unfold bind. rewrite Hm. reflexivity. Qed.

Lemma checkContainer_none s :
  _container s = None ->
  checkContainer s = (Throw ERR_VIRTUAL_NOT_STARTED, s).
Proof. intros Hnone. unfold checkContainer, bind, get. rewrite Hnone. reflexivity. Qed.

Lemma bind_normal {A B} (m : M A) (k : A -> M B) a s s' :
  m s = (Normal a, s') -> bind m k s = k a s'.
Proof. intros Hm. unfold bind. rewrite Hm. reflexivity. Qed.

Lemma checkContainer_some s :
  _container s <> None -> checkContainer s = (Normal tt, s).
Proof.
  intros Hsome. unfold checkContainer, bind, get.
  destruct (_container s); [reflexivity|congruence].
Qed.


Lemma stop_run d s :
  stop d s
  = match removal d s with
    | Normal _ => (Normal tt, stopped s)
    | Throw e => (Throw e, set_treeCache None s)
    end.
Proof.
  unfold stop, removal, stopped, invalidateTreeCache, bind, modify, get, host.
  destruct s as [a c cu il sl t ob bo]. cbn.
  destruct cu; [|reflexivity].
  destruct c as [c|]; [|reflexivity].
  cbn. destruct (removeOverlay (d c)) as [[]|e]; reflexivity.
Qed.

Lemma stop_returns d s s' :
  stop d s = (Normal tt, s') -> s' = stopped s.
Proof.
  rewrite stop_run. destruct (removal d s); congruence.
Qed.


End SessionFacts.

(** ** Logs *)

Section LogFacts.
Context `{Collaborators}.

Lemma set_spokenPhraseLog_same s : set_spokenPhraseLog (_spokenPhraseLog s) s = s.
Proof. destruct s; reflexivity. Qed.

(** Pushing announcements one at a time appends them in order. *)
Lemma push_each_run (phrases : list string) s :
  fold_right
    (fun spokenPhrase rest => pushSpokenPhrase spokenPhrase ;; rest)
    (ret tt) phrases s
  = (Normal tt, set_spokenPhraseLog (_spokenPhraseLog s ++ phrases) s).
Proof.
  revert s. induction phrases as [|p phrases IH]; intros s.
  - cbn [fold_right]. rewrite app_nil_r, set_spokenPhraseLog_same. reflexivity.
  - cbn [fold_right]. unfold bind at 1, pushSpokenPhrase at 1, modify.
    rewrite IH. cbn [set_spokenPhraseLog _spokenPhraseLog].
    rewrite <- app_assoc. reflexivity.
Qed.

Lemma filter_map_swap {A B} (f : A -> B) (p : B -> bool) (l : list A) :
  List.filter p (List.map f l) = List.map f (List.filter (fun x => p (f x)) l).
Proof.
  induction l as [|x l IH]; [reflexivity|].
  cbn [List.map List.filter]. destruct (p (f x)); cbn [List.map]; congruence.
Qed.

Lemma announceLiveRegions_run d mutations s :
  announceLiveRegions d mutations s
  = (Normal tt,
     set_spokenPhraseLog
       (_spokenPhraseLog s
        ++ List.map (getLiveSpokenPhrase d (_container s))
             (List.filter (qualifying d (_container s)) mutations))
       s).
Proof.
  unfold announceLiveRegions, bind at 1, get.
  rewrite push_each_run, filter_map_swap. reflexivity.
Qed.

(** C9. A batch of mutation notifications, through the observer's callback
    as through [#announceLiveRegions] alone, appends to the spoken-phrase
    log one entry per qualifying mutation, in batch order; the item-text
    log and the active node stay as they were, and a mutation that does
    not qualify leaves no entry. *)
Theorem live_regions_append_in_order d mutations s :
  announces d mutations s (announceLiveRegions d mutations s)
  /\ announces d mutations s (onMutations d mutations s)
  /\ forall mutation,
      qualifying d (_container s) mutation = false ->
      announceLiveRegions d [mutation] s = (Normal tt, s).
Proof.
  split; [|split].
  - rewrite announceLiveRegions_run. repeat split.
  - unfold onMutations, bind, invalidateTreeCache, modify.
    rewrite announceLiveRegions_run. repeat split.
  - intros mutation Hq. rewrite announceLiveRegions_run.
    cbn [List.filter]. rewrite Hq. cbn [List.map].
    rewrite app_nil_r. apply f_equal, set_spokenPhraseLog_same.
Qed.

(** C10. On a started engine [lastSpokenPhrase] answers the last entry of
    the spoken-phrase log, and the empty string when the log is empty, as
    it is right after [clearSpokenPhraseLog] or after a [start] of a fresh
    engine over an empty tree; it does not throw and leaves the fields as
    they are. *)
Theorem lastSpokenPhrase_total s :
  _container s <> None ->
  (forall earlier spokenPhrase,
      _spokenPhraseLog s = earlier ++ [spokenPhrase] ->
      lastSpokenPhrase s = (Normal spokenPhrase, s))
  /\ (_spokenPhraseLog s = [] -> lastSpokenPhrase s = (Normal "", s))
  /\ (exists s', clearSpokenPhraseLog s = (Normal tt, s')
                 /\ lastSpokenPhrase s' = (Normal "", s'))
  /\ (forall d container s',
      synthesize d (Some container) = [] ->
      start d (Some container) false false newVirtual = (Normal tt, s') ->
      lastSpokenPhrase s' = (Normal "", s')).
Proof.
  intros Hstarted.
  assert (Hrun : forall s0, _container s0 <> None ->
            lastSpokenPhrase s0
            = (Normal (default "" (last (_spokenPhraseLog s0))), s0)).
  { intros s0 Hs0. unfold lastSpokenPhrase.
    rewrite (bind_normal _ _ _ _ _ (checkContainer_some s0 Hs0)).
    reflexivity. }
  repeat split.
  - intros earlier spokenPhrase Hlog. rewrite Hrun, Hlog, last_snoc by assumption.
    reflexivity.
  - intros Hlog. rewrite Hrun, Hlog by assumption. reflexivity.
  - eexists. split.
    + unfold clearSpokenPhraseLog.
      rewrite (bind_normal _ _ _ _ _ (checkContainer_some s Hstarted)).
      reflexivity.
    + rewrite Hrun by (cbn; congruence). reflexivity.
  - intros d container s' Hempty Hstart.
    unfold start, bind, modify, ret in Hstart.
    rewrite getAccessibilityTree_run in Hstart.
    cbn in Hstart. unfold synthesize in Hempty. cbn in Hstart.
    unfold flattened, synthesize in Hstart. cbn in Hstart.
    rewrite Hempty in Hstart. injection Hstart as <-.
    rewrite Hrun by (cbn; congruence). reflexivity.
Qed.

End LogFacts.

(** ** Array access *)

Lemma at_nonneg {A} (l : list A) (i : Z) :
  0 <= i -> at_ l i = l !! Z.to_nat i.
Proof.
  intros Hi. unfold at_.
  destruct (Z.ltb_spec i 0); [lia|].
  destruct (Z.ltb_spec i 0); [lia|reflexivity].
Qed.

Lemma at_minus_one {A} (l : list A) : l <> [] -> at_ l (-1) = last l.
Proof.
  intros Hne. unfold at_. cbn [Z.ltb Z.compare].
  destruct l as [|x l]; [congruence|].
  rewrite last_lookup. cbn [length].
  destruct (Z.ltb_spec (Z.of_nat (S (length l)) + -1) 0); [lia|].
  f_equal. lia.
Qed.

Lemma at_In {A} (l : list A) (i : Z) (x : A) : at_ l i = Some x -> In x l.
Proof.
  unfold at_. destruct (_ <? 0); [discriminate|].
  intros Hx. apply list_elem_of_In. eapply list_elem_of_lookup_2, Hx.
Qed.

(** ** The cursor *)

Section CursorFacts.
Context `{Collaborators}.

Lemma land_activeNode d n ignore s : _activeNode (land d n ignore s) = Some n.
Proof. unfold land. destruct (ignore && _); reflexivity. Qed.

Lemma land_container d n ignore s :
  _container (land d n ignore s) = _container s.
Proof. unfold land. destruct (ignore && _); reflexivity. Qed.

Lemma land_treeCache d n ignore s :
  _treeCache (land d n ignore s) = _treeCache s.
Proof. unfold land. destruct (ignore && _); reflexivity. Qed.

Lemma modalScoped_flattened d s x :
  In x (modalScoped d s) -> In x (flattened d s).
Proof.
  unfold modalScoped. destruct (_activeNode s) as [a|]; [|auto].
  destruct (isModal d a); [|auto].
  intros Hx. apply filter_In in Hx. tauto.
Qed.

(** In a tree whose dialogs resolve, the lookup of [#updateState] finds an
    entry for the dialog of each of the tree's nodes. *)
Lemma findDialog_resolves d n s dialog :
  dialogsResolve (flattened d s) = true ->
  In n (flattened d s) ->
  parentDialog n = Some dialog ->
  exists dialogNode, findDialog d n s = Some dialogNode.
Proof.
  intros Hres Hin Hdialog. unfold dialogsResolve in Hres.
  rewrite forallb_forall in Hres. specialize (Hres n Hin).
  rewrite Hdialog in Hres. apply existsb_exists in Hres as [m [Hm Hnode]].
  apply bool_decide_eq_true in Hnode.
  unfold findDialog. rewrite Hdialog.
  destruct (List.find _ _) as [dn|] eqn:Hfind; [eauto|].
  apply List.find_none with (x := m) in Hfind; [|exact Hm].
  apply bool_decide_eq_false in Hfind. congruence.
Qed.

Lemma dialogChanged_true n s :
  dialogChanged n s = true -> exists dialog, parentDialog n = Some dialog.
Proof.
  unfold dialogChanged. intros Hc. apply andb_true_iff in Hc as [Hc _].
  apply bool_decide_eq_true in Hc.
  destruct (parentDialog n); [eauto|congruence].
Qed.

(** A state update on a node of a tree whose dialogs resolve returns, with
    the node active, and leaves container and flattened sequence alone. *)
Lemma updateState_returns d n ignore s :
  dialogsResolve (flattened d s) = true ->
  In n (flattened d s) ->
  exists s',
    updateState d n ignore s = (Normal tt, s')
    /\ _activeNode s' = Some n
    /\ _container s' = _container s
    /\ flattened d s' = flattened d s.
Proof.
  intros Hres Hin.
  destruct (dialogChanged n s) eqn:Hchanged.
  - destruct (dialogChanged_true _ _ Hchanged) as [dialog Hdialog].
    destruct (findDialog_resolves d n s dialog Hres Hin Hdialog)
      as [dialogNode Hfind].
    eexists. split; [apply updateState_new_dialog; eassumption|].
    rewrite land_activeNode, land_container. repeat split.
    unfold flattened. rewrite land_treeCache. reflexivity.
  - eexists. split; [apply updateState_same_dialog; assumption|].
    rewrite land_activeNode, land_container. repeat split.
    unfold flattened. rewrite land_treeCache, land_container. reflexivity.
Qed.

(** Whatever happens, a state update either leaves the active node alone
    or makes its argument active. *)
Lemma updateState_active d n ignore s :
  _activeNode (snd (updateState d n ignore s)) = _activeNode s
  \/ _activeNode (snd (updateState d n ignore s)) = Some n.
Proof.
  destruct (dialogChanged n s) eqn:Hchanged.
  - destruct (findDialog d n s) as [dialogNode|] eqn:Hfind.
    + right. erewrite updateState_new_dialog by eassumption.
      apply land_activeNode.
    + left. rewrite updateState_lost_dialog by assumption. reflexivity.
  - right. rewrite updateState_same_dialog by assumption.
    apply land_activeNode.
Qed.

Lemma updateStateAt_active d tree index ignore s :
  _activeNode (snd (updateStateAt d tree index ignore s)) = _activeNode s
  \/ exists n, In n tree
       /\ _activeNode (snd (updateStateAt d tree index ignore s)) = Some n.
Proof.
  unfold updateStateAt. destruct (at_ tree index) as [n|] eqn:Hat.
  - destruct (updateState_active d n ignore s) as [Hsame|Hnew]; [auto|].
    right. exists n. split; [eapply at_In; eassumption|assumption].
  - left. reflexivity.
Qed.

End CursorFacts.

(** ** Navigation *)

Section NavigationFacts.
Context `{Collaborators}.

Lemma length_eqb_nil {A} (l : list A) : l <> [] -> (length l =? 0)%nat = false.
Proof. destruct l; [congruence|reflexivity]. Qed.

Lemma previous_run d s :
  _container s <> None ->
  modalScoped d s <> [] ->
  previous d s
  = updateStateAt d (modalScoped d s)
      (let currentIndex := getCurrentIndex s (modalScoped d s) in
       if currentIndex =? -1 then 0 else currentIndex - 1)
      false (cached d s).
Proof.
  intros Hstarted Hnonempty. unfold previous.
  rewrite (bind_normal _ _ _ _ _ (checkContainer_some s Hstarted)).
  rewrite (bind_normal _ _ _ _ _ (getModalAccessibilityTree_run d s)).
  rewrite length_eqb_nil by assumption. reflexivity.
Qed.

Lemma next_run d s :
  _container s <> None ->
  modalScoped d s <> [] ->
  next d s
  = updateStateAt d (modalScoped d s)
      (let currentIndex := getCurrentIndex s (modalScoped d s) in
       if (currentIndex =? -1)
          || (currentIndex =? Z.of_nat (length (modalScoped d s)) - 1)
       then 0 else currentIndex + 1)
      false (cached d s).
Proof.
  intros Hstarted Hnonempty. unfold next.
  rewrite (bind_normal _ _ _ _ _ (checkContainer_some s Hstarted)).
  rewrite (bind_normal _ _ _ _ _ (getModalAccessibilityTree_run d s)).
  rewrite length_eqb_nil by assumption. reflexivity.
Qed.

Lemma perform_run d command options s :
  _container s <> None ->
  modalScoped d s <> [] ->
  perform d command options s
  = match commands command with
    | Some run =>
        match run d options (_container s)
                (getCurrentIndex s (modalScoped d s)) (modalScoped d s) with
        | None => (Normal tt, cached d s)
        | Some nextIndex =>
            updateStateAt d (modalScoped d s) nextIndex false (cached d s)
        end
    | None =>
        if uncallable command then (Throw TypeError, cached d s)
        else (Normal tt, cached d s)
    end.
Proof.
  intros Hstarted Hnonempty. unfold perform.
  rewrite (bind_normal _ _ _ _ _ (checkContainer_some s Hstarted)).
  rewrite (bind_normal _ _ _ _ _ (getModalAccessibilityTree_run d s)).
  rewrite length_eqb_nil by assumption.
  unfold bind, get. cbn [cached set_treeCache _container].
  destruct (commands command) as [run|];
    [|destruct (uncallable command); reflexivity].
  change (getCurrentIndex (set_treeCache (Some (flattened d s)) s))
    with (getCurrentIndex s).
  destruct (run _ _ _ _ _); reflexivity.
Qed.

(** [next], [previous] and [perform] either leave the active node alone or
    pick the new one in the modal-scoped sequence. *)
Lemma navigation_picks_in_scope d s (m : M unit) :
  m = next d \/ m = previous d
  \/ (exists command options, m = perform d command options) ->
  _activeNode (snd (m s)) = _activeNode s
  \/ exists n, In n (modalScoped d s) /\ _activeNode (snd (m s)) = Some n.
Proof.
  intros Hm.
  destruct (_container s) as [c|] eqn:Hcontainer.
  2:{ left. apply checkContainer_none in Hcontainer.
      destruct Hm as [->|[->|[command [options ->]]]];
        unfold next, previous, perform;
        rewrite (bind_throw _ _ _ _ _ Hcontainer); reflexivity. }
  assert (Hstarted : _container s <> None) by congruence.
  pose proof (checkContainer_some s Hstarted) as Hcheck.
  pose proof (getModalAccessibilityTree_run d s) as Htree.
  destruct (modalScoped d s) as [|x scoped] eqn:Hscoped.
  { left.
    destruct Hm as [->|[->|[command [options ->]]]];
      unfold next, previous, perform;
      rewrite (bind_normal _ _ _ _ _ Hcheck),
        (bind_normal _ _ _ _ _ Htree); reflexivity. }
  rewrite <- Hscoped in *.
  assert (Hnonempty : modalScoped d s <> []) by (rewrite Hscoped; discriminate).
  assert (Hat : forall index,
            _activeNode (snd (updateStateAt d (modalScoped d s) index false
                                (cached d s))) = _activeNode s
            \/ exists n, In n (modalScoped d s)
                 /\ _activeNode (snd (updateStateAt d (modalScoped d s) index
                                        false (cached d s))) = Some n).
  { intros index. exact (updateStateAt_active d _ index false (cached d s)). }
  destruct Hm as [->|[->|[command [options ->]]]].
  - rewrite next_run by assumption. apply Hat.
  - rewrite previous_run by assumption. apply Hat.
  - rewrite perform_run by assumption.
    destruct (commands command) as [run|].
    + destruct (run _ _ _ _ _) as [nextIndex|]; [apply Hat|left; reflexivity].
    + destruct (uncallable command); left; reflexivity.
Qed.

(** C1, as amended. On a started engine whose modal-scoped sequence is not
    empty and whose dialogs resolve, when the active node is found at index
    0, [previous] makes the last node of the sequence active: it wraps
    around from the start to the end (through [tree.at(-1)]), as [next]
    wraps from the end to the start. *)
Theorem previous_wraps_to_end d s :
  _container s <> None ->
  modalScoped d s <> [] ->
  getCurrentIndex s (modalScoped d s) = 0 ->
  dialogsResolve (flattened d s) = true ->
  exists s',
    previous d s = (Normal tt, s')
    /\ _activeNode s' = last (modalScoped d s).
Proof.
  intros Hstarted Hnonempty Hindex Hres.
  rewrite previous_run by assumption. rewrite Hindex.
  cbn [Z.eqb Z.sub Z.add Z.opp Z.pos_sub].
  unfold updateStateAt. rewrite at_minus_one by assumption.
  destruct (last (modalScoped d s)) as [n|] eqn:Hlast.
  - assert (Hin : In n (flattened d (cached d s))).
    { apply modalScoped_flattened. rewrite <- at_minus_one in Hlast by assumption.
      eapply at_In; eassumption. }
    destruct (updateState_returns d n false (cached d s) Hres Hin)
      as [s' [Hrun [Hactive _]]].
    exists s'. split; assumption.
  - apply last_None in Hlast. congruence.
Qed.

(** C2. When the active node's [parentDialog] carries [aria-modal="true"],
    whatever node is active after [next], [previous] or [perform] has that
    same [parentDialog]. *)
Theorem modal_scope_confines d s active dialog :
  _activeNode s = Some active ->
  parentDialog active = Some dialog ->
  getAttribute (d dialog) "aria-modal" = Some "true" ->
  forall (m : M unit),
    m = next d \/ m = previous d
    \/ (exists command options, m = perform d command options) ->
    forall target,
      _activeNode (snd (m s)) = Some target ->
      parentDialog target = parentDialog active.
Proof.
  intros Hactive Hdialog Hmodal m Hm target Htarget.
  destruct (navigation_picks_in_scope d s m Hm) as [Hsame|[n [Hin Hnew]]].
  - congruence.
  - assert (n = target) as -> by congruence.
    unfold modalScoped in Hin. rewrite Hactive in Hin.
    unfold isModal in Hin. rewrite Hdialog, Hmodal in Hin.
    rewrite bool_decide_eq_true_2 in Hin by reflexivity.
    apply filter_In in Hin as [_ Heq].
    apply bool_decide_eq_true in Heq. congruence.
Qed.

End NavigationFacts.

(** ** State updates and the logs *)

Section UpdateFacts.
Context `{Collaborators}.

Lemma dialogChanged_spec n s :
  dialogChanged n s = true
  <-> exists dialog,
        parentDialog n = Some dialog
        /\ forall active,
             _activeNode s = Some active -> parentDialog active <> Some dialog.
Proof.
  unfold dialogChanged. rewrite andb_true_iff, bool_decide_eq_true. split.
  - intros [Hsome Hdiff].
    destruct (parentDialog n) as [dialog|] eqn:Hn; [|congruence].
    exists dialog. split; [reflexivity|]. intros active Hactive.
    rewrite Hactive in Hdiff. apply bool_decide_eq_true in Hdiff. congruence.
  - intros [dialog [Hn Hdiff]]. rewrite Hn. split; [discriminate|].
    destruct (_activeNode s) as [active|]; [|reflexivity].
    apply bool_decide_eq_true. intros Heq. apply (Hdiff active eq_refl).
    congruence.
Qed.

Lemma land_plain d n s :
  land d n false s
  = logged (getSpokenPhrase d n) (getItemText d n) (set_activeNode (Some n) s).
Proof. reflexivity. Qed.

(** C4, as amended. A state update whose target names a dialog as
    [parentDialog], one that the previously active node (if any) does not
    name, first appends the pair of the dialog's entry to the logs and then
    the target's own pair: two entries in each log.  The second pair is
    always appended on navigation calls, and on the other updates as soon
    as the target's item text differs from the dialog's.  A target without
    [parentDialog], as when the cursor leaves a dialog, gets its own pair
    only. *)
Theorem dialog_pair_precedes_target d n ignore s :
  (forall dialog dialogNode,
      parentDialog n = Some dialog ->
      (forall active,
          _activeNode s = Some active -> parentDialog active <> Some dialog) ->
      findDialog d n s = Some dialogNode ->
      ignore = false \/ getItemText d n <> getItemText d dialogNode ->
      exists s',
        updateState d n ignore s = (Normal tt, s')
        /\ _activeNode s' = Some n
        /\ _spokenPhraseLog s'
           = _spokenPhraseLog s
             ++ [getSpokenPhrase d dialogNode; getSpokenPhrase d n]
        /\ _itemTextLog s'
           = _itemTextLog s ++ [getItemText d dialogNode; getItemText d n])
  /\ (parentDialog n = None ->
      ignore = false ->
      exists s',
        updateState d n ignore s = (Normal tt, s')
        /\ _activeNode s' = Some n
        /\ _spokenPhraseLog s' = _spokenPhraseLog s ++ [getSpokenPhrase d n]
        /\ _itemTextLog s' = _itemTextLog s ++ [getItemText d n]).
Proof.
  split.
  - intros dialog dialogNode Hn Hdiff Hfind Hkept.
    assert (Hchanged : dialogChanged n s = true)
      by (apply dialogChanged_spec; eauto).
    eexists. split; [apply updateState_new_dialog; eassumption|].
    assert (Hland : forall s0,
              land d n ignore
                (logged (getSpokenPhrase d dialogNode)
                   (getItemText d dialogNode) s0)
              = land d n false
                  (logged (getSpokenPhrase d dialogNode)
                     (getItemText d dialogNode) s0)).
    { intros s0. destruct Hkept as [->|Htext]; [reflexivity|].
      unfold land, unchanged.
      cbn [logged set_activeNode set_spokenPhraseLog set_itemTextLog
           _itemTextLog].
      rewrite last_snoc.
      rewrite (bool_decide_eq_false_2 (Some (getItemText d n) = _))
        by congruence.
      rewrite !andb_false_r. reflexivity. }
    rewrite Hland, land_plain.
    cbn [logged set_activeNode set_spokenPhraseLog set_itemTextLog cached
         set_treeCache _activeNode _spokenPhraseLog _itemTextLog].
    rewrite <- !app_assoc. repeat split.
  - intros Hn ->.
    assert (Hsame : dialogChanged n s = false).
    { unfold dialogChanged. rewrite Hn.
      rewrite bool_decide_eq_false_2 by congruence. reflexivity. }
    eexists. split; [apply updateState_same_dialog; assumption|].
    rewrite land_plain. repeat split.
Qed.

(** C6, as amended. On a focus notification whose target is found in the
    re-synthesized tree, when the found entry opens no dialog announcement
    (it names no [parentDialog], or the one the active node names) and its
    spoken phrase is the last entry of the spoken-phrase log that is not a
    live-region announcement and its item text the last entry of the
    item-text log, the entry becomes the active node and nothing is
    appended to either log. *)
Theorem refocus_appends_nothing d target s newActive :
  List.find (fun n => bool_decide (Some (node n) = target))
    (synthesize d (_container s)) = Some newActive ->
  (parentDialog newActive = None
   \/ exists active,
        _activeNode s = Some active
        /\ parentDialog active = parentDialog newActive) ->
  last (spokenPhraseLogWithoutLiveRegions s)
    = Some (getSpokenPhrase d newActive) ->
  last (_itemTextLog s) = Some (getItemText d newActive) ->
  exists s',
    handleFocusChange d target s = (Normal tt, s')
    /\ _activeNode s' = Some newActive
    /\ _spokenPhraseLog s' = _spokenPhraseLog s
    /\ _itemTextLog s' = _itemTextLog s.
Proof.
  intros Hfound Hdialog Hphrase Htext.
  set (s1 := set_treeCache None s).
  assert (Hflat : flattened d s1 = synthesize d (_container s)) by reflexivity.
  assert (Hsame : dialogChanged newActive (cached d s1) = false).
  { apply not_true_iff_false. intros Hchanged.
    apply dialogChanged_spec in Hchanged as [dialog [Hn Hdiff]].
    destruct Hdialog as [Hnone|[active [Hactive Heq]]]; [congruence|].
    apply (Hdiff active Hactive). congruence. }
  exists (land d newActive true (cached d s1)). split.
  - unfold handleFocusChange, invalidateTreeCache, bind at 1, modify.
    fold s1. rewrite (bind_normal _ _ _ _ _ (getAccessibilityTree_run d s1)).
    rewrite Hflat, Hfound.
    rewrite length_eqb_nil
      by (intros Hnil; rewrite Hnil in Hfound; discriminate).
    apply updateState_same_dialog, Hsame.
  - assert (Hunchanged :
              unchanged d newActive
                (set_activeNode (Some newActive) (cached d s1)) = true).
    { unfold unchanged. apply andb_true_iff.
      split; apply bool_decide_eq_true; symmetry; assumption. }
    unfold land. rewrite Hunchanged. cbn [andb]. repeat split.
Qed.

End UpdateFacts.

(** ** A full round of [next] *)

Lemma findIndex_first {A} (p : A -> bool) (l : list A) (j : nat) (x : A) :
  l !! j = Some x ->
  p x = true ->
  (forall i y, (i < j)%nat -> l !! i = Some y -> p y = false) ->
  findIndex p l = Z.of_nat j.
Proof.
  revert j. induction l as [|a l IH]; intros j Hj Hx Hbefore.
  - discriminate.
  - destruct j as [|j]; cbn [findIndex].
    + injection Hj as ->. rewrite Hx. reflexivity.
    + rewrite (Hbefore 0%nat a) by (reflexivity || lia).
      rewrite (IH j Hj Hx).
      * destruct (Z.ltb_spec (Z.of_nat j) 0); lia.
      * intros i y Hi Hy. apply (Hbefore (S i) y); [lia|exact Hy].
Qed.

Section RoundFacts.
Context `{Collaborators}.

Lemma sameIdentity_spec active n :
  sameIdentity active n = true <-> identity n = identity active.
Proof.
  unfold sameIdentity, identity.
  rewrite !andb_true_iff, !bool_decide_eq_true. split.
  - intros [[[[[-> ->] ->] ->] ->] ->]. reflexivity.
  - intros Heq. injection Heq as -> -> -> -> -> ->. repeat split.
Qed.

(** With pairwise distinct identities the active node is found where it
    is. *)
Lemma getCurrentIndex_found s tree j x :
  NoDup (identity <$> tree) ->
  tree !! j = Some x ->
  _activeNode s = Some x ->
  getCurrentIndex s tree = Z.of_nat j.
Proof.
  intros Hdistinct Hj Hactive. unfold getCurrentIndex. rewrite Hactive.
  apply findIndex_first with (x := x); [exact Hj| |].
  - apply sameIdentity_spec. reflexivity.
  - intros i y Hi Hy. apply not_true_iff_false. intros Hsame.
    apply sameIdentity_spec in Hsame.
    rewrite NoDup_alt in Hdistinct.
    assert (i = j); [|lia].
    apply (Hdistinct i j (identity x)); rewrite list_lookup_fmap.
    + rewrite Hy. cbn. congruence.
    + rewrite Hj. reflexivity.
Qed.

Lemma isModal_parentDialog d x y :
  parentDialog x = parentDialog y -> isModal d x = isModal d y.
Proof. unfold isModal. intros ->. reflexivity. Qed.

(** The scope does not depend on which of its nodes is active. *)
Lemma scope_closed d s active :
  _activeNode s = Some active ->
  In active (modalScoped d s) ->
  (isModal d active = true
   \/ forall n, In n (flattened d s) -> isModal d n = false) ->
  forall s1 x,
    flattened d s1 = flattened d s ->
    _activeNode s1 = Some x ->
    In x (modalScoped d s) ->
    modalScoped d s1 = modalScoped d s.
Proof.
  intros Hactive Hin Hstable s1 x Hflat Hx Hxin.
  unfold modalScoped in *. rewrite Hactive in *. rewrite Hx, Hflat.
  destruct Hstable as [Hmodal|Hnone].
  - rewrite Hmodal in *.
    apply filter_In in Hxin as [_ Heq]. apply bool_decide_eq_true in Heq.
    rewrite <- (isModal_parentDialog d active x Heq), Hmodal.
    rewrite Heq. reflexivity.
  - assert (Hplain : isModal d active = false).
    { apply Hnone. destruct (isModal d active); [|exact Hin].
      apply filter_In in Hin. tauto. }
    rewrite Hplain in *. rewrite (Hnone x Hxin). reflexivity.
Qed.

Lemma next_index j n :
  (j < n)%nat ->
  (if (Z.of_nat j =? -1) || (Z.of_nat j =? Z.of_nat n - 1)
   then 0 else Z.of_nat j + 1)
  = Z.of_nat ((j + 1) mod n).
Proof.
  intros Hj. destruct (Z.eqb_spec (Z.of_nat j) (-1)); [lia|].
  destruct (Z.eqb_spec (Z.of_nat j) (Z.of_nat n - 1)); cbn [orb].
  - replace (j + 1)%nat with n by lia. rewrite Nat.Div0.mod_same. reflexivity.
  - rewrite Nat.mod_small by lia. lia.
Qed.

Section Round.
Variable d : Document.
Variable s : Virtual.
Variable active : AccessibilityNode.
Hypothesis Hactive : _activeNode s = Some active.
Hypothesis Hin : In active (modalScoped d s).
Hypothesis Hdistinct : NoDup (identity <$> modalScoped d s).
Hypothesis Hstable :
  isModal d active = true
  \/ forall n, In n (flattened d s) -> isModal d n = false.
Hypothesis Hres : dialogsResolve (flattened d s) = true.

Lemma next_step s1 j :
  stands d s s1 j ->
  exists s2,
    next d s1 = (Normal tt, s2)
    /\ stands d s s2 ((j + 1) mod length (modalScoped d s)).
Proof.
  intros [Hc [Hflat [x [Hj Hx]]]].
  assert (Hxin : In x (modalScoped d s))
    by (apply list_elem_of_In; eapply list_elem_of_lookup_2; exact Hj).
  pose proof (scope_closed d s active Hactive Hin Hstable s1 x Hflat Hx Hxin)
    as Hscope.
  pose proof (lookup_lt_Some _ _ _ Hj) as Hlt.
  assert (Hnonempty : modalScoped d s1 <> []).
  { rewrite Hscope. intros Hnil. rewrite Hnil in Hlt. cbn in Hlt. lia. }
  rewrite next_run by assumption. rewrite Hscope.
  rewrite (getCurrentIndex_found s1 _ j x Hdistinct Hj Hx).
  cbv zeta. rewrite next_index by exact Hlt.
  set (k := ((j + 1) mod length (modalScoped d s))%nat).
  assert (Hk : (k < length (modalScoped d s))%nat)
    by (apply Nat.mod_upper_bound; lia).
  destruct (proj2 (lookup_lt_is_Some _ _) Hk) as [y Hy].
  unfold updateStateAt. rewrite at_nonneg by lia.
  rewrite Nat2Z.id, Hy.
  assert (Hyin : In y (flattened d (cached d s1))).
  { rewrite flattened_cached, Hflat. apply modalScoped_flattened.
    apply list_elem_of_In. eapply list_elem_of_lookup_2. exact Hy. }
  assert (Hres1 : dialogsResolve (flattened d (cached d s1)) = true)
    by (rewrite flattened_cached, Hflat; exact Hres).
  destruct (updateState_returns d y false (cached d s1) Hres1 Hyin)
    as [s2 [Hrun [Hact [Hcont Hflat2]]]].
  exists s2. split; [exact Hrun|].
  split; [rewrite Hcont; exact Hc|].
  split; [rewrite Hflat2, flattened_cached; exact Hflat|].
  exists y. split; assumption.
Qed.

Lemma next_steps k : forall s1 j,
  stands d s s1 j ->
  exists s2,
    nextTimes k d s1 = (Normal tt, s2)
    /\ stands d s s2 ((j + k) mod length (modalScoped d s)).
Proof.
  induction k as [|k IH]; intros s1 j Hstands.
  - exists s1. split; [reflexivity|].
    destruct Hstands as [Hc [Hflat [x [Hj Hx]]]].
    rewrite Nat.add_0_r, Nat.mod_small by (eapply lookup_lt_Some; exact Hj).
    repeat split; eauto.
  - destruct (next_step s1 j Hstands) as [s2 [Hrun Hstands2]].
    destruct (IH s2 _ Hstands2) as [s3 [Hruns Hstands3]].
    exists s3. split.
    + cbn [nextTimes]. rewrite (bind_normal _ _ _ _ _ Hrun). exact Hruns.
    + rewrite Nat.Div0.add_mod_idemp_l in Hstands3.
      replace (j + S k)%nat with (j + 1 + k)%nat by lia. exact Hstands3.
Qed.

End Round.

(** C3, as amended. On a started engine over a stable document, with the
    active node in its modal-scoped sequence, the entries of that sequence
    pairwise distinct in the fields the engine compares, the dialogs of the
    tree resolving, and a scope that the round cannot change (the active
    node's dialog is [aria-modal="true"], or no entry's dialog is), [N]
    calls of [next], [N] the length of the modal-scoped sequence, return
    and leave the node they started on active. *)
Theorem next_round_returns d s active :
  _container s <> None ->
  _activeNode s = Some active ->
  In active (modalScoped d s) ->
  NoDup (identity <$> modalScoped d s) ->
  (isModal d active = true
   \/ forall n, In n (flattened d s) -> isModal d n = false) ->
  dialogsResolve (flattened d s) = true ->
  exists s',
    nextTimes (length (modalScoped d s)) d s = (Normal tt, s')
    /\ _activeNode s' = Some active.
Proof.
  intros Hstarted Hactive Hin Hdistinct Hstable Hres.
  pose proof Hin as Hj.
  apply list_elem_of_In, list_elem_of_lookup in Hj as [j Hj].
  assert (Hstands : stands d s s j) by (repeat split; eauto).
  destruct (next_steps d s active Hactive Hin Hdistinct Hstable Hres
              (length (modalScoped d s)) s j Hstands)
    as [s' [Hrun [_ [_ [x [Hx Hact]]]]]].
  exists s'. split; [exact Hrun|].
  replace ((j + length (modalScoped d s)) mod length (modalScoped d s))%nat
    with j in Hx.
  - congruence.
  - rewrite <- (Nat.mul_1_l (length (modalScoped d s))) at 1.
    rewrite Nat.Div0.mod_add, Nat.mod_small; [reflexivity|].
    eapply lookup_lt_Some; exact Hj.
Qed.

End RoundFacts.

(** ** Scenarios on the sample documents *)

Section Scenarios.
Import Sample.
#[local] Existing Instance collaborators.

Lemma previous_wraps_to_end_witness :
  _container onPlay <> None
  /\ getCurrentIndex onPlay (modalScoped plainDocument onPlay) = 0
  /\ exists s',
       previous plainDocument onPlay = (Normal tt, s')
       /\ _activeNode s' = last (modalScoped plainDocument onPlay).
Proof.
  assert (Hstarted : _container onPlay <> None) by (vm_compute; discriminate).
  assert (Hnonempty : modalScoped plainDocument onPlay <> [])
    by (vm_compute; discriminate).
  assert (Hindex : getCurrentIndex onPlay (modalScoped plainDocument onPlay) = 0)
    by reflexivity.
  assert (Hres : dialogsResolve (flattened plainDocument onPlay) = true)
    by reflexivity.
  split; [exact Hstarted|]. split; [exact Hindex|].
  exact (previous_wraps_to_end plainDocument onPlay
           Hstarted Hnonempty Hindex Hres).
Defined.

(** C1, counterexample. With the cursor on the first of two buttons, index
    0 of the sequence, [previous] moves it to the second, the last node of
    the sequence. *)
Lemma previous_at_start_reaches_last :
  _container onPlay <> None
  /\ modalScoped plainDocument onPlay = [play; pause]
  /\ _activeNode onPlay = Some play
  /\ getCurrentIndex onPlay (modalScoped plainDocument onPlay) = 0
  /\ fst (previous plainDocument onPlay) = Normal tt
  /\ _activeNode (snd (previous plainDocument onPlay)) = Some pause
  /\ last (modalScoped plainDocument onPlay) = Some pause.
Proof. repeat split; vm_compute; discriminate. Qed.


(** A [stop] that rejects has not ended the session.  [start] on the two
    buttons with the overlay displayed, then [start] on the dialog page: the
    overlay hangs under the first container, so the second throws when
    [stop] asks it to remove the overlay.  [stop] rejects, the container is
    still recorded, and [next] goes on moving the cursor. *)
Lemma rejected_stop_keeps_session :
  _cursor MoreSample.movedOn = true
  /\ _container MoreSample.movedOn = Some 30%positive
  /\ removeOverlay (MoreSample.overlaidDocument 30%positive) = Throw HostError
  /\ fst (stop MoreSample.overlaidDocument MoreSample.movedOn)
     = Throw HostError
  /\ _container (snd (stop MoreSample.overlaidDocument MoreSample.movedOn))
     = Some 30%positive
  /\ fst (call MoreSample.overlaidDocument Next
            (snd (stop MoreSample.overlaidDocument MoreSample.movedOn)))
     = Normal Undefined
  /\ _activeNode
       (snd (call MoreSample.overlaidDocument Next
               (snd (stop MoreSample.overlaidDocument MoreSample.movedOn))))
     = Some page.
Proof. repeat split; vm_compute; reflexivity. Qed.

Lemma modal_scope_confines_witness :
  _activeNode onModalOk = Some ok
  /\ getAttribute (modalDocument 31%positive) "aria-modal" = Some "true"
  /\ forall target,
       _activeNode (snd (next modalDocument onModalOk)) = Some target ->
       parentDialog target = parentDialog ok.
Proof.
  assert (Hactive : _activeNode onModalOk = Some ok) by reflexivity.
  assert (Hmodal : getAttribute (modalDocument 31%positive) "aria-modal" = Some "true")
    by reflexivity.
  split; [exact Hactive|]. split; [exact Hmodal|].
  exact (modal_scope_confines modalDocument onModalOk ok 31%positive
           Hactive eq_refl Hmodal (next modalDocument) (or_introl eq_refl)).
Defined.

Lemma next_round_returns_witness :
  _activeNode onPage = Some page
  /\ length (modalScoped plainDocument onPage) = 5%nat
  /\ exists s',
       nextTimes (length (modalScoped plainDocument onPage))
         plainDocument onPage = (Normal tt, s')
       /\ _activeNode s' = Some page.
Proof.
  assert (Hstarted : _container onPage <> None) by (vm_compute; discriminate).
  assert (Hactive : _activeNode onPage = Some page) by reflexivity.
  assert (Hin : In page (modalScoped plainDocument onPage))
    by (left; reflexivity).
  assert (Hdistinct : NoDup (identity <$> modalScoped plainDocument onPage)).
  { apply (bool_decide_unpack _). vm_compute. exact I. }
  assert (Hstable : isModal plainDocument page = true
                    \/ forall n, In n (flattened plainDocument onPage) ->
                                 isModal plainDocument n = false).
  { right. intros n Hn.
    change (flattened plainDocument onPage) with dialogPage in Hn.
    repeat (destruct Hn as [<-|Hn]; [reflexivity|]). destruct Hn. }
  assert (Hres : dialogsResolve (flattened plainDocument onPage) = true)
    by reflexivity.
  split; [exact Hactive|]. split; [reflexivity|].
  exact (next_round_returns plainDocument onPage page
           Hstarted Hactive Hin Hdistinct Hstable Hres).
Defined.

(** C3, counterexample. On the page whose dialog is [aria-modal="true"],
    the cursor starts on the document, where the modal-scoped sequence is
    the whole sequence of length 5; five calls of [next] leave it on the
    button inside the dialog, in whose scope it has been caught. *)
Lemma next_round_caught_in_modal :
  _container onModalPage <> None
  /\ _activeNode onModalPage = Some page
  /\ modalScoped modalDocument onModalPage = dialogPage
  /\ length (modalScoped modalDocument onModalPage) = 5%nat
  /\ fst (nextTimes 5 modalDocument onModalPage) = Normal tt
  /\ _activeNode (snd (nextTimes 5 modalDocument onModalPage)) = Some ok
  /\ ok <> page.
Proof. repeat split; vm_compute; discriminate. Qed.

Lemma dialog_pair_precedes_target_witness :
  parentDialog ok = Some 31%positive
  /\ _activeNode onConfirm = Some confirm
  /\ findDialog plainDocument ok onConfirm = Some confirm
  /\ exists s',
       updateState plainDocument ok false onConfirm = (Normal tt, s')
       /\ _activeNode s' = Some ok
       /\ _spokenPhraseLog s'
          = _spokenPhraseLog onConfirm
            ++ [getSpokenPhrase plainDocument confirm;
                getSpokenPhrase plainDocument ok]
       /\ _itemTextLog s'
          = _itemTextLog onConfirm
            ++ [getItemText plainDocument confirm;
                getItemText plainDocument ok].
Proof.
  assert (Hactive : _activeNode onConfirm = Some confirm) by reflexivity.
  assert (Hfind : findDialog plainDocument ok onConfirm = Some confirm)
    by reflexivity.
  assert (Hdiff : forall active,
            _activeNode onConfirm = Some active ->
            parentDialog active <> Some 31%positive).
  { intros active Heq. rewrite Hactive in Heq. injection Heq as <-.
    discriminate. }
  split; [reflexivity|]. split; [exact Hactive|]. split; [exact Hfind|].
  exact (proj1 (dialog_pair_precedes_target plainDocument ok false onConfirm)
           31%positive confirm eq_refl Hdiff Hfind (or_introl eq_refl)).
Defined.

(** C4, counterexample. With the cursor on the button inside the dialog,
    [next] makes the closing entry of the dialog active, whose
    [parentDialog] (none) differs from the button's (the dialog): the
    update appends the target's pair alone, one entry in each log. *)
Lemma leaving_dialog_logs_once :
  _activeNode onOk = Some ok
  /\ parentDialog endConfirm <> parentDialog ok
  /\ next plainDocument onOk
     = updateState plainDocument endConfirm false onOk
  /\ fst (next plainDocument onOk) = Normal tt
  /\ _activeNode (snd (next plainDocument onOk)) = Some endConfirm
  /\ _spokenPhraseLog (snd (next plainDocument onOk))
     = _spokenPhraseLog onOk ++ ["end of dialog"]
  /\ _itemTextLog (snd (next plainDocument onOk))
     = _itemTextLog onOk ++ [""].
Proof. repeat split; vm_compute; discriminate. Qed.

Lemma refocus_appends_nothing_witness :
  last (_spokenPhraseLog onOkOutside)
    = Some (getSpokenPhrase plainDocument okOutside)
  /\ exists s',
       handleFocusChange plainDocument (Some 41%positive) onOkOutside
         = (Normal tt, s')
       /\ _activeNode s' = Some okOutside
       /\ _spokenPhraseLog s' = _spokenPhraseLog onOkOutside
       /\ _itemTextLog s' = _itemTextLog onOkOutside.
Proof.
  split; [reflexivity|].
  exact (refocus_appends_nothing plainDocument (Some 41%positive) onOkOutside
           okOutside eq_refl (or_introl eq_refl) eq_refl eq_refl).
Defined.

(** C6, counterexample. The cursor is on the "OK" button outside the
    dialog and the logs end with its phrase and text; focus moves to the
    "OK" button inside the dialog, which is found in the tree and whose
    phrase and text are those last entries. The engine appends the dialog's
    pair and then the button's. *)
Lemma refocus_into_dialog_appends :
  List.find (fun n => bool_decide (Some (node n) = Some 43%positive))
    (synthesize plainDocument (_container onOkOutside)) = Some okInside
  /\ last (_spokenPhraseLog onOkOutside)
     = Some (getSpokenPhrase plainDocument okInside)
  /\ last (_itemTextLog onOkOutside)
     = Some (getItemText plainDocument okInside)
  /\ fst (handleFocusChange plainDocument (Some 43%positive) onOkOutside)
     = Normal tt
  /\ _spokenPhraseLog
       (snd (handleFocusChange plainDocument (Some 43%positive) onOkOutside))
     = _spokenPhraseLog onOkOutside ++ ["dialog, Prompt"; "button, OK"]
  /\ _itemTextLog
       (snd (handleFocusChange plainDocument (Some 43%positive) onOkOutside))
     = _itemTextLog onOkOutside ++ ["Prompt"; "OK"].
Proof. repeat split. Qed.

Lemma live_regions_append_in_order_witness :
  qualifying plainDocument (_container onPlay) ("", "typed") = false
  /\ announceLiveRegions plainDocument [("", "typed")] onPlay
     = (Normal tt, onPlay)
  /\ _spokenPhraseLog
       (snd (onMutations plainDocument
               [("polite", "Saved"); ("", "typed"); ("assertive", "Failed")]
               onPlay))
     = _spokenPhraseLog onPlay ++ ["polite: Saved"; "assertive: Failed"].
Proof.
  pose proof (live_regions_append_in_order plainDocument
                [("polite", "Saved"); ("", "typed"); ("assertive", "Failed")]
                onPlay) as [_ [[_ [Hlog _]] _]].
  split; [reflexivity|]. split; [|exact Hlog].
  exact (proj2 (proj2 (live_regions_append_in_order plainDocument [] onPlay))
           ("", "typed") eq_refl).
Defined.

Lemma lastSpokenPhrase_total_witness :
  _container onPlay <> None
  /\ lastSpokenPhrase onPlay = (Normal "button, Play", onPlay).
Proof.
  assert (Hstarted : _container onPlay <> None) by (vm_compute; discriminate).
  split; [exact Hstarted|].
  exact (proj1 (lastSpokenPhrase_total onPlay Hstarted) [] "button, Play"
           eq_refl).
Defined.

End Scenarios.

(** * Further properties of the code *)

(** ** [findIndex] and [find] *)

Lemma findIndex_bounds {A} (p : A -> bool) (l : list A) :
  -1 <= findIndex p l < Z.of_nat (length l).
Proof.
  induction l as [|x l IH]; cbn [findIndex length]; [lia|].
  destruct (p x); [lia|].
  destruct (Z.ltb_spec (findIndex p l) 0); lia.
Qed.

Lemma findIndex_find {A} (p : A -> bool) (l : list A) :
  (findIndex p l = -1 /\ List.find p l = None)
  \/ (0 <= findIndex p l
      /\ exists x, l !! Z.to_nat (findIndex p l) = Some x
                   /\ List.find p l = Some x /\ p x = true).
Proof.
  induction l as [|a l IH]; cbn [findIndex List.find]; [left; auto|].
  destruct (p a) eqn:Hp.
  - right. split; [lia|]. exists a. auto.
  - destruct IH as [[Hi Hf]|[Hi [x [Hx [Hf Hpx]]]]].
    + left. rewrite Hi. auto.
    + right. destruct (Z.ltb_spec (findIndex p l) 0); [lia|].
      split; [lia|]. exists x.
      replace (Z.to_nat (findIndex p l + 1)) with (S (Z.to_nat (findIndex p l)))
        by lia.
      auto.
Qed.

Lemma findIndex_none {A} (p : A -> bool) (l : list A) :
  findIndex p l = -1 <-> forall x, In x l -> p x = false.
Proof.
  destruct (findIndex_find p l) as [[Hi Hf]|[Hi [x [Hx [Hf Hpx]]]]].
  - split; [|auto]. intros _ x Hin. eapply List.find_none; eassumption.
  - split; [lia|]. intros Hall.
    apply list_elem_of_lookup_2, list_elem_of_In in Hx.
    rewrite (Hall x Hx) in Hpx. discriminate.
Qed.

(** ** How the logs grow *)

Section GrowthFacts.
Context `{Collaborators}.

Lemma grownInStep_same_logs s s' :
  _spokenPhraseLog s' = _spokenPhraseLog s ->
  _itemTextLog s' = _itemTextLog s ->
  grownInStep s s'.
Proof.
  intros Hs Hi. exists [], []. rewrite !app_nil_r. auto.
Qed.

Lemma grownInStep_trans s1 s2 s3 :
  grownInStep s1 s2 -> grownInStep s2 s3 -> grownInStep s1 s3.
Proof.
  intros [k1 [t1 [Hs1 [Hi1 Hl1]]]] [k2 [t2 [Hs2 [Hi2 Hl2]]]].
  exists (k1 ++ k2), (t1 ++ t2).
  rewrite Hs2, Hs1, Hi2, Hi1, <- !app_assoc, !length_app. auto.
Qed.

Lemma grownInStep_logged spokenPhrase text s :
  grownInStep s (logged spokenPhrase text s).
Proof. exists [spokenPhrase], [text]. auto. Qed.

Lemma grownInStep_land d n ignore s : grownInStep s (land d n ignore s).
Proof.
  unfold land. destruct (ignore && _).
  - apply grownInStep_same_logs; reflexivity.
  - eapply grownInStep_trans; [|apply grownInStep_logged].
    apply grownInStep_same_logs; reflexivity.
Qed.

(** Whatever its outcome, a state update appends to the two logs in step. *)
Lemma updateState_grows d n ignore s :
  grownInStep s (snd (updateState d n ignore s)).
Proof.
  destruct (dialogChanged n s) eqn:Hchanged.
  - destruct (findDialog d n s) as [dialogNode|] eqn:Hfind.
    + erewrite updateState_new_dialog by eassumption. cbn [snd].
      eapply grownInStep_trans; [|apply grownInStep_land].
      eapply grownInStep_trans; [|apply grownInStep_logged].
      apply grownInStep_same_logs; reflexivity.
    + rewrite updateState_lost_dialog by assumption.
      apply grownInStep_same_logs; reflexivity.
  - rewrite updateState_same_dialog by assumption. apply grownInStep_land.
Qed.

Lemma updateStateAt_grows d tree index ignore s :
  grownInStep s (snd (updateStateAt d tree index ignore s)).
Proof.
  unfold updateStateAt. destruct (at_ tree index).
  - apply updateState_grows.
  - apply grownInStep_same_logs; reflexivity.
Qed.

Lemma last_logged_spoken spokenPhrase text s :
  last (_spokenPhraseLog (logged spokenPhrase text s)) = Some spokenPhrase.
Proof. cbn. apply last_snoc. Qed.

Lemma last_logged_text spokenPhrase text s :
  last (_itemTextLog (logged spokenPhrase text s)) = Some text.
Proof. cbn. apply last_snoc. Qed.

(** A navigation update ([ignoreIfNoChange] off) on a node of a tree whose
    dialogs resolve: it returns, the node is active, and the logs end with
    the node's phrase and text. *)
Lemma updateState_speaks d n s :
  dialogsResolve (flattened d s) = true ->
  In n (flattened d s) ->
  exists s',
    updateState d n false s = (Normal tt, s')
    /\ _activeNode s' = Some n
    /\ _container s' = _container s
    /\ flattened d s' = flattened d s
    /\ last (_spokenPhraseLog s') = Some (getSpokenPhrase d n)
    /\ last (_itemTextLog s') = Some (getItemText d n).
Proof.
  intros Hres Hin.
  destruct (updateState_returns d n false s Hres Hin)
    as [s' [Hrun [Hact [Hcont Hflat]]]].
  exists s'. repeat split; try assumption.
  - destruct (dialogChanged n s) eqn:Hchanged.
    + destruct (dialogChanged_true _ _ Hchanged) as [dialog Hdialog].
      destruct (findDialog_resolves d n s dialog Hres Hin Hdialog)
        as [dialogNode Hfind].
      rewrite (updateState_new_dialog d n false s dialogNode Hchanged Hfind)
        in Hrun.
      injection Hrun as <-. rewrite land_plain. apply last_logged_spoken.
    + rewrite updateState_same_dialog in Hrun by assumption.
      injection Hrun as <-. rewrite land_plain. apply last_logged_spoken.
  - destruct (dialogChanged n s) eqn:Hchanged.
    + destruct (dialogChanged_true _ _ Hchanged) as [dialog Hdialog].
      destruct (findDialog_resolves d n s dialog Hres Hin Hdialog)
        as [dialogNode Hfind].
      rewrite (updateState_new_dialog d n false s dialogNode Hchanged Hfind)
        in Hrun.
      injection Hrun as <-. rewrite land_plain. apply last_logged_text.
    + rewrite updateState_same_dialog in Hrun by assumption.
      injection Hrun as <-. rewrite land_plain. apply last_logged_text.
Qed.

End GrowthFacts.

Lemma at_in_range {A} (l : list A) (i : Z) :
  - Z.of_nat (length l) <= i < Z.of_nat (length l) ->
  exists x, at_ l i = Some x.
Proof.
  intros Hi. unfold at_.
  destruct (Z.ltb_spec i 0) as [Hneg|Hpos].
  - destruct (Z.ltb_spec (Z.of_nat (length l) + i) 0); [lia|].
    apply lookup_lt_is_Some. lia.
  - destruct (Z.ltb_spec i 0); [lia|].
    apply lookup_lt_is_Some. lia.
Qed.

(** ** The cursor always lands *)

Section LandingFacts.
Context `{Collaborators}.

Lemma lastSpokenPhrase_run s :
  _container s <> None ->
  lastSpokenPhrase s = (Normal (default "" (last (_spokenPhraseLog s))), s).
Proof.
  intros Hs. unfold lastSpokenPhrase.
  rewrite (bind_normal _ _ _ _ _ (checkContainer_some s Hs)). reflexivity.
Qed.

Lemma itemText_run s :
  _container s <> None ->
  itemText s = (Normal (default "" (last (_itemTextLog s))), s).
Proof.
  intros Hs. unfold itemText.
  rewrite (bind_normal _ _ _ _ _ (checkContainer_some s Hs)). reflexivity.
Qed.

(** A navigation update at an index inside the scope. *)
Lemma updateStateAt_speaks d s index :
  dialogsResolve (flattened d s) = true ->
  - Z.of_nat (length (modalScoped d s)) <= index
    < Z.of_nat (length (modalScoped d s)) ->
  exists s' n,
    updateStateAt d (modalScoped d s) index false (cached d s) = (Normal tt, s')
    /\ at_ (modalScoped d s) index = Some n
    /\ _activeNode s' = Some n
    /\ _container s' = _container s
    /\ flattened d s' = flattened d s
    /\ last (_spokenPhraseLog s') = Some (getSpokenPhrase d n)
    /\ last (_itemTextLog s') = Some (getItemText d n).
Proof.
  intros Hres Hindex.
  destruct (at_in_range _ _ Hindex) as [n Hn].
  assert (Hin : In n (flattened d (cached d s))).
  { apply modalScoped_flattened. eapply at_In. exact Hn. }
  destruct (updateState_speaks d n (cached d s) Hres Hin)
    as [s' [Hrun [Hact [Hcont [Hflat [Hspoken Htext]]]]]].
  exists s', n. unfold updateStateAt. rewrite Hn. repeat split; assumption.
Qed.

(** X1. On a started engine whose modal-scoped sequence is not empty and
    whose dialogs resolve, [next] and [previous] always return (the index
    they compute is one that [tree.at] answers), the node they make active
    is an entry of the modal-scoped sequence, and right after the call
    [lastSpokenPhrase] and [itemText] answer that node's phrase and text. *)
Theorem navigation_lands_and_speaks d s (m : M unit) :
  _container s <> None ->
  modalScoped d s <> [] ->
  dialogsResolve (flattened d s) = true ->
  m = next d \/ m = previous d ->
  exists s' n,
    m s = (Normal tt, s')
    /\ In n (modalScoped d s)
    /\ _activeNode s' = Some n
    /\ lastSpokenPhrase s' = (Normal (getSpokenPhrase d n), s')
    /\ itemText s' = (Normal (getItemText d n), s').
Proof.
  intros Hstarted Hnonempty Hres Hm.
  pose proof (findIndex_bounds
                (fun n => match _activeNode s with
                          | None => false
                          | Some active => sameIdentity active n
                          end) (modalScoped d s)) as Hbounds.
  fold (getCurrentIndex s (modalScoped d s)) in Hbounds.
  assert (Hlen : 0 < Z.of_nat (length (modalScoped d s))).
  { destruct (modalScoped d s); [congruence|cbn; lia]. }
  assert (Hland : forall index,
            - Z.of_nat (length (modalScoped d s)) <= index
              < Z.of_nat (length (modalScoped d s)) ->
            exists s' n,
              updateStateAt d (modalScoped d s) index false (cached d s)
              = (Normal tt, s')
              /\ In n (modalScoped d s)
              /\ _activeNode s' = Some n
              /\ lastSpokenPhrase s' = (Normal (getSpokenPhrase d n), s')
              /\ itemText s' = (Normal (getItemText d n), s')).
  { intros index Hindex.
    destruct (updateStateAt_speaks d s index Hres Hindex)
      as [s' [n [Hrun [Hat [Hact [Hcont [_ [Hspoken Htext]]]]]]]].
    exists s', n. split; [exact Hrun|].
    split; [eapply at_In; exact Hat|]. split; [exact Hact|].
    assert (Hs' : _container s' <> None) by (rewrite Hcont; exact Hstarted).
    rewrite lastSpokenPhrase_run, itemText_run, Hspoken, Htext by exact Hs'.
    split; reflexivity. }
  destruct Hm as [->| ->].
  - rewrite next_run by assumption. apply Hland. cbv zeta.
    destruct (Z.eqb_spec (getCurrentIndex s (modalScoped d s)) (-1));
      cbn [orb]; [lia|].
    destruct (Z.eqb_spec (getCurrentIndex s (modalScoped d s))
                (Z.of_nat (length (modalScoped d s)) - 1)); lia.
  - rewrite previous_run by assumption. apply Hland. cbv zeta.
    destruct (Z.eqb_spec (getCurrentIndex s (modalScoped d s)) (-1)); lia.
Qed.

(** X2. When the active node is not found in the modal-scoped sequence (no
    node is active, or the document has changed under the cursor), [next] and
    [previous] both make the first entry of the sequence active. *)
Theorem lost_cursor_restarts d s first rest (m : M unit) :
  _container s <> None ->
  modalScoped d s = first :: rest ->
  getCurrentIndex s (modalScoped d s) = -1 ->
  dialogsResolve (flattened d s) = true ->
  m = next d \/ m = previous d ->
  exists s', m s = (Normal tt, s') /\ _activeNode s' = Some first.
Proof.
  intros Hstarted Hscope Hlost Hres Hm.
  assert (Hnonempty : modalScoped d s <> []) by (rewrite Hscope; discriminate).
  assert (Hindex : - Z.of_nat (length (modalScoped d s)) <= 0
                   < Z.of_nat (length (modalScoped d s)))
    by (rewrite Hscope; cbn [length]; lia).
  destruct (updateStateAt_speaks d s 0 Hres Hindex)
    as [s' [n [Hrun [Hat [Hact _]]]]].
  rewrite Hscope in Hat. cbn in Hat. injection Hat as <-.
  exists s'. split; [|exact Hact].
  destruct Hm as [->| ->].
  - rewrite next_run, Hlost by assumption. exact Hrun.
  - rewrite previous_run, Hlost by assumption. exact Hrun.
Qed.

End LandingFacts.

(** ** Back and forth *)

Section BackAndForth.
Context `{Collaborators}.
Variable d : Document.
Variable s : Virtual.
Variable active : AccessibilityNode.
Hypothesis Hactive : _activeNode s = Some active.
Hypothesis Hin : In active (modalScoped d s).
Hypothesis Hdistinct : NoDup (identity <$> modalScoped d s).
Hypothesis Hstable :
  isModal d active = true
  \/ forall n, In n (flattened d s) -> isModal d n = false.
Hypothesis Hres : dialogsResolve (flattened d s) = true.

Lemma previous_step s1 j :
  stands d s s1 j ->
  exists s2,
    previous d s1 = (Normal tt, s2)
    /\ stands d s s2
         ((j + (length (modalScoped d s) - 1)) mod length (modalScoped d s)).
Proof.
  intros [Hc [Hflat [x [Hj Hx]]]].
  assert (Hxin : In x (modalScoped d s))
    by (apply list_elem_of_In; eapply list_elem_of_lookup_2; exact Hj).
  pose proof (scope_closed d s active Hactive Hin Hstable s1 x Hflat Hx Hxin)
    as Hscope.
  pose proof (lookup_lt_Some _ _ _ Hj) as Hlt.
  assert (Hnonempty : modalScoped d s1 <> []).
  { rewrite Hscope. intros Hnil. rewrite Hnil in Hlt. cbn in Hlt. lia. }
  rewrite previous_run by assumption. rewrite Hscope.
  rewrite (getCurrentIndex_found s1 _ j x Hdistinct Hj Hx).
  cbv zeta. set (N := length (modalScoped d s)) in *.
  set (k := ((j + (N - 1)) mod N)%nat).
  assert (Hk : (k < N)%nat) by (apply Nat.mod_upper_bound; lia).
  destruct (proj2 (lookup_lt_is_Some _ _) Hk) as [y Hy].
  assert (Hat : at_ (modalScoped d s)
                  (if Z.of_nat j =? -1 then 0 else Z.of_nat j - 1) = Some y).
  { destruct (Z.eqb_spec (Z.of_nat j) (-1)); [lia|].
    destruct j as [|j].
    - change (Z.of_nat 0 - 1) with (-1). rewrite at_minus_one.
      + rewrite last_lookup. fold N. rewrite <- Hy. f_equal. unfold k.
        cbn [Nat.add]. rewrite Nat.mod_small by lia. lia.
      + intros Hnil. unfold N in Hlt. rewrite Hnil in Hlt. cbn in Hlt. lia.
    - rewrite at_nonneg by lia. rewrite <- Hy. f_equal. unfold k.
      replace (S j + (N - 1))%nat with (j + 1 * N)%nat by lia.
      rewrite Nat.Div0.mod_add, Nat.mod_small by lia. lia. }
  unfold updateStateAt. rewrite Hat.
  assert (Hyin : In y (flattened d (cached d s1))).
  { rewrite flattened_cached, Hflat. apply modalScoped_flattened.
    apply list_elem_of_In. eapply list_elem_of_lookup_2. exact Hy. }
  assert (Hres1 : dialogsResolve (flattened d (cached d s1)) = true)
    by (rewrite flattened_cached, Hflat; exact Hres).
  destruct (updateState_returns d y false (cached d s1) Hres1 Hyin)
    as [s2 [Hrun [Hact [Hcont Hflat2]]]].
  exists s2. split; [exact Hrun|].
  split; [rewrite Hcont; exact Hc|].
  split; [rewrite Hflat2, flattened_cached; exact Hflat|].
  exists y. split; assumption.
Qed.

Lemma previous_steps k : forall s1 j,
  stands d s s1 j ->
  exists s2,
    previousTimes k d s1 = (Normal tt, s2)
    /\ stands d s s2
         ((j + k * (length (modalScoped d s) - 1))
            mod length (modalScoped d s)).
Proof.
  induction k as [|k IH]; intros s1 j Hstands.
  - exists s1. split; [reflexivity|].
    destruct Hstands as [Hc [Hflat [x [Hj Hx]]]].
    cbn [Nat.mul]. rewrite Nat.add_0_r, Nat.mod_small
      by (eapply lookup_lt_Some; exact Hj).
    repeat split; eauto.
  - destruct (previous_step s1 j Hstands) as [s2 [Hrun Hstands2]].
    destruct (IH s2 _ Hstands2) as [s3 [Hruns Hstands3]].
    exists s3. split.
    + cbn [previousTimes]. rewrite (bind_normal _ _ _ _ _ Hrun). exact Hruns.
    + rewrite Nat.Div0.add_mod_idemp_l in Hstands3.
      replace (j + S k * (length (modalScoped d s) - 1))%nat
        with (j + (length (modalScoped d s) - 1)
              + k * (length (modalScoped d s) - 1))%nat by lia.
      exact Hstands3.
Qed.

End BackAndForth.

Section RoundTrips.
Context `{Collaborators}.

Lemma back_to_start j k n :
  (j < n)%nat ->
  (((j + k) mod n + k * (n - 1)) mod n = j
   /\ ((j + k * (n - 1)) mod n + k) mod n = j)%nat.
Proof.
  intros Hj.
  rewrite !Nat.Div0.add_mod_idemp_l.
  replace (j + k + k * (n - 1))%nat with (j + k * n)%nat by nia.
  replace (j + k * (n - 1) + k)%nat with (j + k * n)%nat by nia.
  rewrite Nat.Div0.mod_add, Nat.mod_small by exact Hj. auto.
Qed.

(** X3. On a started engine over a stable document, with the active node in
    its modal-scoped sequence, entries pairwise distinct in the fields the
    engine compares, dialogs that resolve and a scope the walk cannot change,
    [k] calls of [next] followed by [k] calls of [previous] all return and
    bring the cursor back to the node it started on, wrapping around either
    end; and so do [k] calls of [previous] followed by [k] calls of [next]. *)
Theorem there_and_back d s active (k : nat) :
  _container s <> None ->
  _activeNode s = Some active ->
  In active (modalScoped d s) ->
  NoDup (identity <$> modalScoped d s) ->
  (isModal d active = true
   \/ forall n, In n (flattened d s) -> isModal d n = false) ->
  dialogsResolve (flattened d s) = true ->
  (exists s1 s2,
      nextTimes k d s = (Normal tt, s1)
      /\ previousTimes k d s1 = (Normal tt, s2)
      /\ _activeNode s2 = Some active)
  /\ (exists s1 s2,
         previousTimes k d s = (Normal tt, s1)
         /\ nextTimes k d s1 = (Normal tt, s2)
         /\ _activeNode s2 = Some active).
Proof.
  intros Hstarted Hactive Hin Hdistinct Hstable Hres.
  pose proof Hin as Hj.
  apply list_elem_of_In, list_elem_of_lookup in Hj as [j Hj].
  pose proof (lookup_lt_Some _ _ _ Hj) as Hlt.
  assert (Hstands : stands d s s j) by (repeat split; eauto).
  destruct (back_to_start j k _ Hlt) as [Hthere Hback].
  split.
  - destruct (next_steps d s active Hactive Hin Hdistinct Hstable Hres
                k s j Hstands) as [s1 [Hrun1 Hstands1]].
    destruct (previous_steps d s active Hactive Hin Hdistinct Hstable Hres
                k s1 _ Hstands1) as [s2 [Hrun2 [_ [_ [x [Hx Hact]]]]]].
    exists s1, s2. repeat split; try assumption.
    rewrite Hthere in Hx. congruence.
  - destruct (previous_steps d s active Hactive Hin Hdistinct Hstable Hres
                k s j Hstands) as [s1 [Hrun1 Hstands1]].
    destruct (next_steps d s active Hactive Hin Hdistinct Hstable Hres
                k s1 _ Hstands1) as [s2 [Hrun2 [_ [_ [x [Hx Hact]]]]]].
    exists s1, s2. repeat split; try assumption.
    rewrite Hback in Hx. congruence.
Qed.

End RoundTrips.

(** ** The logs under the cursor's methods *)

Section LockstepFacts.
Context `{Collaborators}.

Lemma grownInStep_refl s : grownInStep s s.
Proof. apply grownInStep_same_logs; reflexivity. Qed.

Lemma grows_ret {A} (a : A) : grows (ret a).
Proof. intros s. apply grownInStep_refl. Qed.

Lemma grows_throw {A} e : grows (@throw A e).
Proof. intros s. apply grownInStep_refl. Qed.

Lemma grows_get : grows get.
Proof. intros s. apply grownInStep_refl. Qed.

Lemma grows_bind {A B} (m : M A) (k : A -> M B) :
  grows m -> (forall a, grows (k a)) -> grows (bind m k).
Proof.
  intros Hm Hk s. unfold bind. specialize (Hm s).
  destruct (m s) as [[a|e] s1]; cbn [snd] in *.
  - eapply grownInStep_trans; [exact Hm|apply Hk].
  - exact Hm.
Qed.

Lemma grows_modify (f : Virtual -> Virtual) :
  (forall s, _spokenPhraseLog (f s) = _spokenPhraseLog s) ->
  (forall s, _itemTextLog (f s) = _itemTextLog s) ->
  grows (modify f).
Proof. intros Hs Hi s. apply grownInStep_same_logs; [apply Hs|apply Hi]. Qed.

Lemma grows_host answer : grows (host answer).
Proof. destruct answer; [apply grows_ret|apply grows_throw]. Qed.

Lemma grows_checkContainer : grows checkContainer.
Proof.
  apply grows_bind; [apply grows_get|]. intros s.
  destruct (_container s); [apply grows_ret|apply grows_throw].
Qed.

Lemma grows_getAccessibilityTree d : grows (getAccessibilityTree d).
Proof.
  intros s. rewrite getAccessibilityTree_run. apply grownInStep_same_logs;
    reflexivity.
Qed.

Lemma grows_getModalAccessibilityTree d : grows (getModalAccessibilityTree d).
Proof.
  intros s. rewrite getModalAccessibilityTree_run.
  apply grownInStep_same_logs; reflexivity.
Qed.

Lemma grows_invalidateTreeCache : grows invalidateTreeCache.
Proof. apply grows_modify; reflexivity. Qed.

Lemma grows_updateState d n ignore : grows (updateState d n ignore).
Proof. intros s. apply updateState_grows. Qed.

Lemma grows_updateStateAt d tree index ignore :
  grows (updateStateAt d tree index ignore).
Proof. intros s. apply updateStateAt_grows. Qed.

Lemma grows_refreshState d ignore : grows (refreshState d ignore).
Proof.
  unfold refreshState.
  apply grows_bind; [apply grows_invalidateTreeCache|intros _].
  apply grows_bind; [apply grows_getAccessibilityTree|intros tree].
  apply grows_bind; [apply grows_get|intros s].
  apply grows_updateStateAt.
Qed.

Lemma grows_handleFocusChange d target : grows (handleFocusChange d target).
Proof.
  unfold handleFocusChange.
  apply grows_bind; [apply grows_invalidateTreeCache|intros _].
  apply grows_bind; [apply grows_getAccessibilityTree|intros tree].
  destruct (length tree =? 0)%nat; [apply grows_ret|].
  destruct (List.find _ tree); [apply grows_updateState|apply grows_ret].
Qed.

Lemma grows_call d op : isClear op = false -> grows (call d op).
Proof.
  intros Hop.
  destruct op; try discriminate Hop; unfold call, void;
    (apply grows_bind; [|intros; apply grows_ret]).
  - unfold next. apply grows_bind; [apply grows_checkContainer|intros _].
    apply grows_bind; [apply grows_getModalAccessibilityTree|intros tree].
    destruct (length tree =? 0)%nat; [apply grows_ret|].
    apply grows_bind; [apply grows_get|intros s]. apply grows_updateStateAt.
  - unfold previous. apply grows_bind; [apply grows_checkContainer|intros _].
    apply grows_bind; [apply grows_getModalAccessibilityTree|intros tree].
    destruct (length tree =? 0)%nat; [apply grows_ret|].
    apply grows_bind; [apply grows_get|intros s]. apply grows_updateStateAt.
  - unfold act. apply grows_bind; [apply grows_checkContainer|intros _].
    apply grows_bind; [apply grows_get|intros s].
    destruct (_activeNode s); [apply grows_host|apply grows_ret].
  - unfold press. apply grows_bind; [apply grows_checkContainer|intros _].
    apply grows_bind; [apply grows_get|intros s].
    destruct (_activeNode s); [|apply grows_ret].
    apply grows_bind; [apply grows_host|intros _]. apply grows_refreshState.
  - unfold type. apply grows_bind; [apply grows_checkContainer|intros _].
    apply grows_bind; [apply grows_get|intros s].
    destruct (_activeNode s); [|apply grows_ret].
    apply grows_bind; [apply grows_host|intros _]. apply grows_refreshState.
  - unfold click. apply grows_bind; [apply grows_checkContainer|intros _].
    apply grows_bind; [apply grows_get|intros s].
    destruct (_activeNode s); [|apply grows_ret].
    destruct (negb (truthy button)); [apply grows_throw|].
    destruct (clickCount <? 0); [apply grows_throw|apply grows_host].
  - unfold perform. apply grows_bind; [apply grows_checkContainer|intros _].
    apply grows_bind; [apply grows_getModalAccessibilityTree|intros tree].
    destruct (length tree =? 0)%nat; [apply grows_ret|].
    apply grows_bind; [apply grows_get|intros s].
    destruct (commands command) as [run|].
    + destruct (run _ _ _ _ _); [apply grows_updateStateAt|apply grows_ret].
    + destruct (uncallable command); [apply grows_throw|apply grows_ret].
  - apply grows_checkContainer.
  - apply grows_checkContainer.
  - unfold lastSpokenPhrase.
    apply grows_bind; [apply grows_checkContainer|intros _].
    apply grows_bind; [apply grows_get|intros s]. apply grows_ret.
  - unfold itemText.
    apply grows_bind; [apply grows_checkContainer|intros _].
    apply grows_bind; [apply grows_get|intros s]. apply grows_ret.
  - unfold spokenPhraseLog.
    apply grows_bind; [apply grows_checkContainer|intros _].
    apply grows_bind; [apply grows_get|intros s]. apply grows_ret.
  - unfold itemTextLog.
    apply grows_bind; [apply grows_checkContainer|intros _].
    apply grows_bind; [apply grows_get|intros s]. apply grows_ret.
Qed.

(** X4. Apart from the two clearing calls, no cursor, navigation or log call
    and no focus notification ever removes or rewrites a log entry: whatever
    the outcome, also along a whole script of calls, the logs afterwards are
    the logs before with the same number of entries appended to each. *)
Theorem logs_grow_in_step d ops target s :
  forallb (fun op => negb (isClear op)) ops = true ->
  grownInStep s (script d ops s)
  /\ grownInStep s (snd (handleFocusChange d target s)).
Proof.
  intros Hops. split; [|apply grows_handleFocusChange].
  revert s. induction ops as [|op ops IH]; intros s.
  - apply grownInStep_refl.
  - cbn [forallb] in Hops. apply andb_true_iff in Hops as [Hop Hrest].
    apply negb_true_iff in Hop. cbn [script fold_left].
    eapply grownInStep_trans; [apply (grows_call d op Hop)|].
    apply IH, Hrest.
Qed.

End LockstepFacts.

(** ** Scripts inside a modal dialog *)

Section ModalFacts.
Context `{Collaborators}.

Lemma snd_void (m : M unit) s : snd (void m s) = snd (m s).
Proof. unfold void, bind. destruct (m s) as [[[]|e] s']; reflexivity. Qed.

Lemma navigation_call d op :
  isNavigation op = true ->
  exists m : M unit,
    (m = next d \/ m = previous d
     \/ exists command options, m = perform d command options)
    /\ forall s, snd (call d op s) = snd (m s).
Proof.
  intros Hop. destruct op; try discriminate Hop.
  - exists (next d). split; [auto|]. intros s. apply snd_void.
  - exists (previous d). split; [auto|]. intros s. apply snd_void.
  - exists (perform d command options). split; [eauto|].
    intros s. apply snd_void.
Qed.

(** X5. Once the active node's [parentDialog] carries [aria-modal="true"],
    and for as long as it does, no script of [next], [previous] and [perform]
    calls takes the cursor out of the dialog: after the script a node is
    active and it has that same [parentDialog]. *)
Theorem modal_scope_holds d ops : forall s active dialog,
  _activeNode s = Some active ->
  parentDialog active = Some dialog ->
  getAttribute (d dialog) "aria-modal" = Some "true" ->
  forallb isNavigation ops = true ->
  exists target,
    _activeNode (script d ops s) = Some target
    /\ parentDialog target = Some dialog.
Proof.
  induction ops as [|op ops IH]; intros s active dialog Hactive Hdialog Hmodal Hops.
  - exists active. auto.
  - cbn [forallb] in Hops. apply andb_true_iff in Hops as [Hop Hrest].
    cbn [script fold_left].
    destruct (navigation_call d op Hop) as [m [Hm Hcall]].
    assert (Hnext : exists target,
              _activeNode (snd (call d op s)) = Some target
              /\ parentDialog target = Some dialog).
    { rewrite Hcall.
      destruct (navigation_picks_in_scope d s m Hm) as [Hsame|[n [Hin Hnew]]].
      - exists active. split; congruence.
      - exists n. split; [exact Hnew|].
        unfold modalScoped in Hin. rewrite Hactive in Hin.
        unfold isModal in Hin. rewrite Hdialog, Hmodal in Hin.
        rewrite bool_decide_eq_true_2 in Hin by reflexivity.
        apply filter_In in Hin as [_ Heq].
        apply bool_decide_eq_true in Heq. congruence. }
    destruct Hnext as [target [Htarget Hsame]].
    exact (IH _ target dialog Htarget Hsame Hmodal Hrest).
Qed.

End ModalFacts.

(** ** Calls that find nothing to do *)

Section IdleFacts.
Context `{Collaborators}.

Lemma snd_bind_ret {A B} (m : M A) (f : A -> B) s :
  snd (bind m (fun a => ret (f a)) s) = snd (m s).
Proof. unfold bind. destruct (m s) as [[a|e] s']; reflexivity. Qed.

Lemma void_run (m : M unit) s s' :
  m s = (Normal tt, s') -> void m s = (Normal Undefined, s').
Proof. intros Hm. unfold void. rewrite (bind_normal _ _ _ _ _ Hm). reflexivity. Qed.

(** X6. On a started engine [perform] returns without moving the cursor or
    touching the logs when the command table has no property of that name
    (the lookup gives [undefined] and the call is skipped), and when the
    command answers something that is not a number (it found no target).
    For a name whose lookup cannot be called, over a scope that is not
    empty, [perform] throws a [TypeError] instead, the cursor and the logs
    again as they were. *)
Theorem perform_without_target d command options s :
  _container s <> None ->
  (((commands command = None /\ uncallable command = false)
    \/ exists run,
         commands command = Some run
         /\ run d options (_container s)
              (getCurrentIndex s (modalScoped d s)) (modalScoped d s) = None) ->
   exists s',
     perform d command options s = (Normal tt, s')
     /\ _activeNode s' = _activeNode s
     /\ _spokenPhraseLog s' = _spokenPhraseLog s
     /\ _itemTextLog s' = _itemTextLog s)
  /\ (commands command = None ->
      uncallable command = true ->
      modalScoped d s <> [] ->
      exists s',
        perform d command options s = (Throw TypeError, s')
        /\ _activeNode s' = _activeNode s
        /\ _spokenPhraseLog s' = _spokenPhraseLog s
        /\ _itemTextLog s' = _itemTextLog s).
Proof.
  intros Hstarted. split.
  - intros Hidle. exists (cached d s). split; [|repeat split].
    destruct (modalScoped d s) as [|x scoped] eqn:Hscoped.
    + unfold perform.
      rewrite (bind_normal _ _ _ _ _ (checkContainer_some s Hstarted)).
      rewrite (bind_normal _ _ _ _ _ (getModalAccessibilityTree_run d s)).
      rewrite Hscoped. reflexivity.
    + rewrite perform_run by (assumption || (rewrite Hscoped; discriminate)).
      rewrite Hscoped in *.
      destruct Hidle as [[-> ->]|[run [-> ->]]]; reflexivity.
  - intros Hnone Hobject Hnonempty. exists (cached d s).
    split; [|repeat split].
    rewrite perform_run by assumption. rewrite Hnone, Hobject. reflexivity.
Qed.

(** X7. On a started engine whose modal-scoped sequence is empty, [next],
    [previous] and every [perform] return at once: no node becomes active
    and the logs stay as they are. *)
Theorem empty_tree_is_idle d op s :
  _container s <> None ->
  modalScoped d s = [] ->
  isNavigation op = true ->
  exists s',
    call d op s = (Normal Undefined, s')
    /\ _activeNode s' = _activeNode s
    /\ _spokenPhraseLog s' = _spokenPhraseLog s
    /\ _itemTextLog s' = _itemTextLog s.
Proof.
  intros Hstarted Hempty Hop. exists (cached d s). split; [|repeat split].
  pose proof (checkContainer_some s Hstarted) as Hcheck.
  pose proof (getModalAccessibilityTree_run d s) as Htree.
  rewrite Hempty in Htree.
  destruct op; try discriminate Hop; unfold call; apply void_run;
    unfold next, previous, perform;
    rewrite (bind_normal _ _ _ _ _ Hcheck), (bind_normal _ _ _ _ _ Htree);
    reflexivity.
Qed.

End IdleFacts.

(** ** Sessions *)

Section SessionsFacts.
Context `{Collaborators}.

Lemma start_run d container displayCursor rootHasDocument s :
  start d (Some container) displayCursor rootHasDocument s
  = let s0 := set_container (Some container) s in
    let go s1 :=
      let s2 := set_disconnectDOMObserver true s1 in
      match flattened d s2 with
      | [] => (Normal tt, cached d s2)
      | first :: _ =>
          updateState d first false
            (set_boundHandleFocusChange true (cached d s2))
      end in
    if displayCursor && rootHasDocument then
      match appendOverlay (d container) with
      | Normal _ => go (set_cursor true s0)
      | Throw e => (Throw e, set_cursor true s0)
      end
    else go s0.
Proof.
  unfold start, createCursor, host.
  destruct displayCursor, rootHasDocument; cbn [andb];
    unfold bind, modify, ret, get, throw; cbv beta iota zeta;
    cbn [_container set_container set_cursor];
    try (destruct (appendOverlay (d container)) as [[]|e]; [|reflexivity]);
    rewrite getAccessibilityTree_run;
    destruct (flattened d _); reflexivity.
Qed.

(** X8. A [start] on the engine that a [stop] has returned is a [start] on
    a fresh one: same outcome, same fields (no log entry, cursor or cached
    tree of the earlier session is left), whenever no overlay is asked for
    or the container takes it.  When the container throws on the overlay,
    both reject with that error, and the fields differ in the observer's
    handle only, which [stop] does not reset. *)
Theorem restart_is_fresh_start
    d host container displayCursor rootHasDocument s s' :
  stop host s = (Normal tt, s') ->
  (displayCursor = false \/ rootHasDocument = false
   \/ appendOverlay (d container) = Normal tt ->
   start d (Some container) displayCursor rootHasDocument s'
   = start d (Some container) displayCursor rootHasDocument newVirtual)
  /\ (forall e,
        displayCursor = true ->
        rootHasDocument = true ->
        appendOverlay (d container) = Throw e ->
        start d (Some container) displayCursor rootHasDocument newVirtual
        = (Throw e, set_cursor true (set_container (Some container) newVirtual))
        /\ start d (Some container) displayCursor rootHasDocument s'
           = (Throw e,
              set_disconnectDOMObserver (_disconnectDOMObserver s)
                (set_cursor true
                   (set_container (Some container) newVirtual)))).
Proof.
  intros Hstop. apply stop_returns in Hstop. subst s'.
  rewrite !start_run. split.
  - intros Hcase. cbv zeta.
    destruct (displayCursor && rootHasDocument) eqn:Hoverlay; [|reflexivity].
    apply andb_true_iff in Hoverlay as [-> ->].
    destruct Hcase as [Hno|[Hno|Hok]]; try discriminate Hno.
    rewrite Hok. reflexivity.
  - intros e -> -> Hthrow. cbv zeta. cbn [andb]. rewrite Hthrow.
    split; reflexivity.
Qed.

Lemma land_flags d n ignore s :
  _boundHandleFocusChange (land d n ignore s) = _boundHandleFocusChange s
  /\ _cursor (land d n ignore s) = _cursor s
  /\ _disconnectDOMObserver (land d n ignore s) = _disconnectDOMObserver s.
Proof. unfold land. destruct (ignore && _); repeat split. Qed.

(** A state update never touches the overlay and the subscriptions. *)
Lemma updateState_flags d n ignore s :
  _boundHandleFocusChange (snd (updateState d n ignore s))
  = _boundHandleFocusChange s
  /\ _cursor (snd (updateState d n ignore s)) = _cursor s
  /\ _disconnectDOMObserver (snd (updateState d n ignore s))
     = _disconnectDOMObserver s.
Proof.
  destruct (dialogChanged n s) eqn:Hchanged.
  - destruct (findDialog d n s) as [dialogNode|] eqn:Hfind.
    + erewrite updateState_new_dialog by eassumption. cbn [snd].
      destruct (land_flags d n ignore
                  (logged (getSpokenPhrase d dialogNode)
                     (getItemText d dialogNode) (cached d s)))
        as [-> [-> ->]]. repeat split.
    + rewrite updateState_lost_dialog by assumption. repeat split.
  - rewrite updateState_same_dialog by assumption. apply land_flags.
Qed.

(** X9. [start] on a fresh engine, when no overlay is asked for or the
    container takes it: over a container whose synthesized sequence is not
    empty (and whose dialogs resolve) it returns with the container
    recorded, the focus listener bound, the first entry active and its
    phrase and text the last of the logs; over an empty sequence it returns
    as well, with the container recorded, but no node is active, the logs
    are empty and the focus listener is not bound.  When the container
    throws on the overlay, [start] rejects with that error, the container
    and the overlay recorded and nothing else done. *)
Theorem start_positions_on_first d container displayCursor rootHasDocument :
  (displayCursor = false \/ rootHasDocument = false
   \/ appendOverlay (d container) = Normal tt ->
   (forall first rest,
       synthesize d (Some container) = first :: rest ->
       dialogsResolve (first :: rest) = true ->
       exists s',
         start d (Some container) displayCursor rootHasDocument newVirtual
         = (Normal tt, s')
         /\ _container s' = Some container
         /\ _activeNode s' = Some first
         /\ _boundHandleFocusChange s' = true
         /\ lastSpokenPhrase s' = (Normal (getSpokenPhrase d first), s')
         /\ itemText s' = (Normal (getItemText d first), s'))
   /\ (synthesize d (Some container) = [] ->
       exists s',
         start d (Some container) displayCursor rootHasDocument newVirtual
         = (Normal tt, s')
         /\ _container s' = Some container
         /\ _activeNode s' = None
         /\ _spokenPhraseLog s' = []
         /\ _itemTextLog s' = []
         /\ _boundHandleFocusChange s' = false))
  /\ (forall e,
        displayCursor = true ->
        rootHasDocument = true ->
        appendOverlay (d container) = Throw e ->
        start d (Some container) displayCursor rootHasDocument newVirtual
        = (Throw e,
           set_cursor true (set_container (Some container) newVirtual))).
Proof.
  split.
  2:{ intros e -> -> Hthrow. rewrite start_run. cbv zeta. cbn [andb].
      rewrite Hthrow. reflexivity. }
  intros Hoverlay.
  set (s0 := set_disconnectDOMObserver true
               (set_cursor (displayCursor && rootHasDocument)
                  (set_container (Some container) newVirtual))).
  assert (Hstart :
            start d (Some container) displayCursor rootHasDocument newVirtual
            = match synthesize d (Some container) with
              | [] => (Normal tt, cached d s0)
              | first :: _ =>
                  updateState d first false
                    (set_boundHandleFocusChange true (cached d s0))
              end).
  { rewrite start_run. cbv zeta. unfold s0.
    destruct (displayCursor && rootHasDocument) eqn:Hboth.
    - apply andb_true_iff in Hboth as [-> ->].
      destruct Hoverlay as [Hno|[Hno|Hok]]; try discriminate Hno.
      rewrite Hok.
      change (flattened d _) with (synthesize d (Some container)).
      destruct (synthesize d (Some container)); reflexivity.
    - change (flattened d _) with (synthesize d (Some container)).
      destruct (synthesize d (Some container)); reflexivity. }
  split.
  - intros first rest Htree Hres.
    set (s1 := set_boundHandleFocusChange true (cached d s0)).
    assert (Hflat : flattened d s1 = first :: rest) by exact Htree.
    assert (Hres1 : dialogsResolve (flattened d s1) = true)
      by (rewrite Hflat; exact Hres).
    assert (Hin : In first (flattened d s1)) by (rewrite Hflat; left; reflexivity).
    destruct (updateState_speaks d first s1 Hres1 Hin)
      as [s' [Hrun [Hact [Hcont [_ [Hspoken Htext]]]]]].
    exists s'. rewrite Hstart, Htree. fold s1.
    assert (Hs' : _container s' <> None) by (rewrite Hcont; discriminate).
    rewrite lastSpokenPhrase_run, itemText_run, Hspoken, Htext by exact Hs'.
    repeat split; try assumption.
    pose proof (updateState_flags d first false s1) as [Hbound _].
    rewrite Hrun in Hbound. exact Hbound.
  - intros Htree. exists (cached d s0). rewrite Hstart, Htree.
    repeat split.
Qed.

End SessionsFacts.

(** ** Re-synchronisation after an interaction or a focus change *)

Section ResyncFacts.
Context `{Collaborators}.




(** X11. A focus notification whose target is the document node of no entry
    of the re-synthesized tree (in particular when the tree is empty) leaves
    the active node and both logs as they are; when an entry has the target
    as its document node (dialogs resolving), the first such entry becomes
    the active node.  In both cases the handler returns. *)
Theorem focus_follows_the_target d target s :
  let tree := synthesize d (_container s) in
  let found :=
    List.find (fun n => bool_decide (Some (node n) = target)) tree in
  (found = None ->
   exists s',
     handleFocusChange d target s = (Normal tt, s')
     /\ _activeNode s' = _activeNode s
     /\ _spokenPhraseLog s' = _spokenPhraseLog s
     /\ _itemTextLog s' = _itemTextLog s)
  /\ (forall entry,
        found = Some entry ->
        dialogsResolve tree = true ->
        exists s',
          handleFocusChange d target s = (Normal tt, s')
          /\ _activeNode s' = Some entry).
Proof.
  intros tree found.
  set (s1 := cached d (set_treeCache None s)).
  assert (Hrun : handleFocusChange d target s
                 = if (length tree =? 0)%nat then (Normal tt, s1)
                   else match found with
                        | None => (Normal tt, s1)
                        | Some entry => updateState d entry true s1
                        end).
  { unfold handleFocusChange, invalidateTreeCache, bind at 1, modify.
    rewrite (bind_normal _ _ _ _ _ (getAccessibilityTree_run d _)).
    change (flattened d (set_treeCache None s)) with tree. fold found. fold s1.
    destruct (length tree =? 0)%nat; [reflexivity|].
    destruct found; reflexivity. }
  split.
  - intros Hnone. exists s1. rewrite Hrun, Hnone.
    destruct (length tree =? 0)%nat; repeat split.
  - intros entry Hentry Hres. rewrite Hrun, Hentry.
    assert (Hin : In entry (flattened d s1)).
    { apply List.find_some in Hentry. tauto. }
    rewrite length_eqb_nil.
    + destruct (updateState_returns d entry true s1 Hres Hin)
        as [s' [Hupd [Hact _]]].
      exists s'. auto.
    + intros Hnil. unfold found in Hentry. rewrite Hnil in Hentry.
      discriminate Hentry.
Qed.

End ResyncFacts.

(** ** The logs do not steer the cursor *)

Section BlindFacts.
Context `{Collaborators}.

Lemma blind_ret {A} (a : A) : blind (ret a).
Proof. intros s1 s2 Hsame. auto. Qed.

Lemma blind_throw {A} e : blind (@throw A e).
Proof. intros s1 s2 Hsame. auto. Qed.

Lemma blind_bind {A B} (m : M A) (k : A -> M B) :
  blind m -> (forall a, blind (k a)) -> blind (bind m k).
Proof.
  intros Hm Hk s1 s2 Hsame. unfold bind.
  destruct (Hm s1 s2 Hsame) as [Hfst Hsnd].
  destruct (m s1) as [[a1|e1] t1], (m s2) as [[a2|e2] t2];
    cbn [fst snd] in *; try discriminate.
  - injection Hfst as ->. apply Hk, Hsnd.
  - injection Hfst as ->. auto.
Qed.

(** Reading the fields is harmless when the continuation is. *)
Lemma blind_get {A} (k : Virtual -> M A) :
  (forall s1 s2,
      sameCursor s1 s2 ->
      fst (k s1 s1) = fst (k s2 s2)
      /\ sameCursor (snd (k s1 s1)) (snd (k s2 s2))) ->
  blind (bind get k).
Proof. intros Hk s1 s2 Hsame. unfold bind, get. apply Hk, Hsame. Qed.

Lemma blind_modify (f : Virtual -> Virtual) :
  (forall s1 s2, sameCursor s1 s2 -> sameCursor (f s1) (f s2)) ->
  blind (modify f).
Proof. intros Hf s1 s2 Hsame. split; [reflexivity|apply Hf, Hsame]. Qed.

Lemma sameCursor_flattened d s1 s2 :
  sameCursor s1 s2 -> flattened d s1 = flattened d s2.
Proof. intros [_ [Hc Ht]]. unfold flattened. rewrite Hc, Ht. reflexivity. Qed.

Lemma sameCursor_modalScoped d s1 s2 :
  sameCursor s1 s2 -> modalScoped d s1 = modalScoped d s2.
Proof.
  intros Hsame. unfold modalScoped.
  rewrite (sameCursor_flattened d s1 s2 Hsame).
  destruct Hsame as [-> _]. reflexivity.
Qed.

Lemma sameCursor_cached d s1 s2 :
  sameCursor s1 s2 -> sameCursor (cached d s1) (cached d s2).
Proof.
  intros Hsame. pose proof (sameCursor_flattened d s1 s2 Hsame) as Hflat.
  destruct Hsame as [Ha [Hc Ht]]. unfold cached, sameCursor. cbn.
  rewrite Hflat. auto.
Qed.

Lemma sameCursor_logged p1 t1 p2 t2 s1 s2 :
  sameCursor s1 s2 -> sameCursor (logged p1 t1 s1) (logged p2 t2 s2).
Proof. intros Hsame. exact Hsame. Qed.

Lemma sameCursor_land d n i1 i2 s1 s2 :
  sameCursor s1 s2 -> sameCursor (land d n i1 s1) (land d n i2 s2).
Proof.
  intros [Ha [Hc Ht]]. unfold land.
  destruct (i1 && _), (i2 && _); unfold sameCursor; cbn; auto.
Qed.

Lemma blind_checkContainer : blind checkContainer.
Proof.
  apply blind_get. intros s1 s2 Hsame. pose proof Hsame as [Ha [Hc Ht]].
  rewrite Hc. destruct (_container s2); split; try reflexivity; exact Hsame.
Qed.

Lemma blind_getAccessibilityTree d : blind (getAccessibilityTree d).
Proof.
  intros s1 s2 Hsame. rewrite !getAccessibilityTree_run. cbn [fst snd].
  rewrite (sameCursor_flattened d s1 s2 Hsame).
  split; [reflexivity|apply sameCursor_cached, Hsame].
Qed.

Lemma blind_getModalAccessibilityTree d : blind (getModalAccessibilityTree d).
Proof.
  intros s1 s2 Hsame. rewrite !getModalAccessibilityTree_run. cbn [fst snd].
  rewrite (sameCursor_modalScoped d s1 s2 Hsame).
  split; [reflexivity|apply sameCursor_cached, Hsame].
Qed.

Lemma blind_invalidateTreeCache : blind invalidateTreeCache.
Proof.
  apply blind_modify. intros s1 s2 [Ha [Hc Ht]]. unfold sameCursor. cbn. auto.
Qed.

(** Outcome and cursor of a state update are those of any other run from the
    same cursor, whatever the logs and whatever [ignoreIfNoChange]. *)
Lemma updateState_blind d n i1 i2 s1 s2 :
  sameCursor s1 s2 ->
  fst (updateState d n i1 s1) = fst (updateState d n i2 s2)
  /\ sameCursor (snd (updateState d n i1 s1)) (snd (updateState d n i2 s2)).
Proof.
  intros Hsame.
  assert (Hchanged : dialogChanged n s1 = dialogChanged n s2).
  { unfold dialogChanged. destruct Hsame as [-> _]. reflexivity. }
  assert (Hfind : findDialog d n s1 = findDialog d n s2).
  { unfold findDialog. rewrite (sameCursor_flattened d s1 s2 Hsame). reflexivity. }
  destruct (dialogChanged n s2) eqn:Hc2.
  - destruct (findDialog d n s2) as [dialogNode|] eqn:Hf2.
    + rewrite (updateState_new_dialog d n i1 s1 dialogNode Hchanged Hfind).
      rewrite (updateState_new_dialog d n i2 s2 dialogNode Hc2 Hf2).
      split; [reflexivity|]. cbn [snd].
      apply sameCursor_land, sameCursor_logged, sameCursor_cached, Hsame.
    + rewrite (updateState_lost_dialog d n i1 s1 Hchanged Hfind).
      rewrite (updateState_lost_dialog d n i2 s2 Hc2 Hf2).
      split; [reflexivity|apply sameCursor_cached, Hsame].
  - rewrite (updateState_same_dialog d n i1 s1 Hchanged).
    rewrite (updateState_same_dialog d n i2 s2 Hc2).
    split; [reflexivity|apply sameCursor_land, Hsame].
Qed.

Lemma blind_updateStateAt d tree index ignore :
  blind (updateStateAt d tree index ignore).
Proof.
  intros s1 s2 Hsame. unfold updateStateAt.
  destruct (at_ tree index); [apply updateState_blind, Hsame|auto].
Qed.

Lemma sameCursor_indexes s1 s2 tree :
  sameCursor s1 s2 ->
  getCurrentIndex s1 tree = getCurrentIndex s2 tree
  /\ getCurrentIndexByNode s1 tree = getCurrentIndexByNode s2 tree.
Proof.
  intros [Ha _]. unfold getCurrentIndex, getCurrentIndexByNode.
  rewrite Ha. auto.
Qed.

Lemma blind_refreshState d ignore : blind (refreshState d ignore).
Proof.
  unfold refreshState.
  apply blind_bind; [apply blind_invalidateTreeCache|intros _].
  apply blind_bind; [apply blind_getAccessibilityTree|intros tree].
  apply blind_get. intros s1 s2 Hsame.
  destruct (sameCursor_indexes s1 s2 tree Hsame) as [_ ->].
  apply blind_updateStateAt, Hsame.
Qed.

Lemma blind_navigate d (index : Virtual -> list AccessibilityNode -> option Z) :
  (forall s1 s2 tree, sameCursor s1 s2 -> index s1 tree = index s2 tree) ->
  blind (checkContainer ;;
         let* tree := getModalAccessibilityTree d in
         if (length tree =? 0)%nat then ret tt
         else
           let* s := get in
           match index s tree with
           | None => ret tt
           | Some nextIndex => updateStateAt d tree nextIndex false
           end).
Proof.
  intros Hindex.
  apply blind_bind; [apply blind_checkContainer|intros _].
  apply blind_bind; [apply blind_getModalAccessibilityTree|intros tree].
  destruct (length tree =? 0)%nat; [apply blind_ret|].
  apply blind_get. intros s1 s2 Hsame.
  rewrite (Hindex s1 s2 tree Hsame).
  destruct (index s2 tree); [apply blind_updateStateAt, Hsame|auto].
Qed.

Lemma blind_guarded (after : AccessibilityNode -> M unit) :
  (forall active, blind (after active)) ->
  blind (checkContainer ;;
         let* s := get in
         match _activeNode s with
         | None => ret tt
         | Some active => after active
         end).
Proof.
  intros Hafter.
  apply blind_bind; [apply blind_checkContainer|intros _].
  apply blind_get. intros s1 s2 Hsame.
  pose proof Hsame as [Ha Hrest]. rewrite Ha.
  destruct (_activeNode s2); [apply Hafter, Hsame|]. split; [reflexivity|exact Hsame].
Qed.

Lemma blind_host answer : blind (host answer).
Proof. destruct answer; [apply blind_ret|apply blind_throw]. Qed.

End BlindFacts.

Section SteeringFacts.
Context `{Collaborators}.

Lemma blind_void (m : M unit) : blind m -> blind (void m).
Proof. intros Hm. apply blind_bind; [exact Hm|intros _; apply blind_ret]. Qed.

Lemma blind_next d : blind (next d).
Proof.
  exact (blind_navigate d
           (fun s tree =>
              Some (let currentIndex := getCurrentIndex s tree in
                    if (currentIndex =? -1)
                       || (currentIndex =? Z.of_nat (length tree) - 1)
                    then 0 else currentIndex + 1))
           (fun s1 s2 tree Hsame =>
              f_equal
                (fun currentIndex =>
                   Some (if (currentIndex =? -1)
                            || (currentIndex =? Z.of_nat (length tree) - 1)
                         then 0 else currentIndex + 1))
                (proj1 (sameCursor_indexes s1 s2 tree Hsame)))).
Qed.

Lemma blind_previous d : blind (previous d).
Proof.
  exact (blind_navigate d
           (fun s tree =>
              Some (let currentIndex := getCurrentIndex s tree in
                    if currentIndex =? -1 then 0 else currentIndex - 1))
           (fun s1 s2 tree Hsame =>
              f_equal
                (fun currentIndex =>
                   Some (if currentIndex =? -1 then 0 else currentIndex - 1))
                (proj1 (sameCursor_indexes s1 s2 tree Hsame)))).
Qed.

Lemma blind_perform d command options : blind (perform d command options).
Proof.
  unfold perform.
  apply blind_bind; [apply blind_checkContainer|intros _].
  apply blind_bind; [apply blind_getModalAccessibilityTree|intros tree].
  destruct (length tree =? 0)%nat; [apply blind_ret|].
  apply blind_get. intros s1 s2 Hsame.
  destruct (commands command) as [run|].
  - destruct (sameCursor_indexes s1 s2 tree Hsame) as [-> _].
    pose proof Hsame as [_ [-> _]].
    destruct (run _ _ _ _ _); [apply blind_updateStateAt, Hsame|auto].
  - destruct (uncallable command); [apply blind_throw|apply blind_ret];
      exact Hsame.
Qed.

(** X12. The logs do not steer the cursor.  Two engines that agree on the
    active node, the container and the cached tree, whatever their logs,
    answer every call other than the four that read the logs with the same
    outcome (the same value, or the same error) and agree on active node,
    container and cached tree afterwards; in particular clearing a log
    changes nothing to where later calls take the cursor. *)
Theorem logs_do_not_steer d op s1 s2 :
  readsLogs op = false ->
  sameCursor s1 s2 ->
  fst (call d op s1) = fst (call d op s2)
  /\ sameCursor (snd (call d op s1)) (snd (call d op s2)).
Proof.
  intros Hop. revert s1 s2. change (blind (call d op)).
  destruct op; try discriminate Hop; unfold call; apply blind_void.
  - apply blind_next.
  - apply blind_previous.
  - apply (blind_guarded (fun active => host (userEventClick active))).
    intros active. apply blind_host.
  - apply (blind_guarded
             (fun _ =>
                host (userEventKeyboard (keyboardCommand key)) ;;
                refreshState d true)).
    intros _. apply blind_bind; [apply blind_host|intros _].
    apply blind_refreshState.
  - apply (blind_guarded
             (fun active =>
                host (userEventType active text) ;; refreshState d true)).
    intros active. apply blind_bind; [apply blind_host|intros _].
    apply blind_refreshState.
  - apply (blind_guarded
             (fun active =>
                if negb (truthy button) then throw TypeError
                else if clickCount <? 0 then throw RangeError
                     else host (userEventPointer active button clickCount))).
    intros active.
    destruct (negb (truthy button)); [apply blind_throw|].
    destruct (clickCount <? 0); [apply blind_throw|apply blind_host].
  - apply blind_perform.
  - apply blind_checkContainer.
  - apply blind_checkContainer.
  - apply blind_bind; [apply blind_checkContainer|intros _].
    apply blind_modify. intros t1 t2 Hsame. exact Hsame.
  - apply blind_bind; [apply blind_checkContainer|intros _].
    apply blind_modify. intros t1 t2 Hsame. exact Hsame.
Qed.

End SteeringFacts.

(** ** [trim] and blank text *)

Lemma truthy_rev_app (s1 s2 : string) :
  truthy (String.rev_app s1 s2) = truthy s1 || truthy s2.
Proof.
  revert s2. induction s1 as [|c s1 IH]; intros s2; cbn; [reflexivity|].
  rewrite IH. cbn. apply orb_true_r.
Qed.

Lemma allWhiteSpace_rev_app (s1 s2 : string) :
  allWhiteSpace (String.rev_app s1 s2) = allWhiteSpace s1 && allWhiteSpace s2.
Proof.
  revert s2. induction s1 as [|c s1 IH]; intros s2; cbn [String.rev_app allWhiteSpace];
    [reflexivity|].
  rewrite IH. cbn [allWhiteSpace].
  destruct (isWhiteSpace c), (allWhiteSpace s1), (allWhiteSpace s2); reflexivity.
Qed.

Lemma truthy_trimStart (s : string) :
  truthy (trimStart s) = negb (allWhiteSpace s).
Proof.
  induction s as [|c s IH]; cbn [trimStart allWhiteSpace]; [reflexivity|].
  destruct (isWhiteSpace c); [exact IH|reflexivity].
Qed.

Lemma allWhiteSpace_trimStart (s : string) :
  allWhiteSpace (trimStart s) = allWhiteSpace s.
Proof.
  induction s as [|c s IH]; cbn [trimStart allWhiteSpace]; [reflexivity|].
  destruct (isWhiteSpace c) eqn:Hc; [exact IH|].
  cbn [allWhiteSpace]. rewrite Hc. reflexivity.
Qed.

(** What is left after [trim] is empty exactly for blank text. *)
Lemma truthy_trim (s : string) : truthy (trim s) = negb (allWhiteSpace s).
Proof.
  unfold trim, String.rev.
  rewrite truthy_rev_app, orb_false_r, truthy_trimStart.
  rewrite allWhiteSpace_rev_app, andb_true_r, allWhiteSpace_trimStart.
  reflexivity.
Qed.

(** ** More on hidden nodes *)

Section HiddenMore.
Context `{DomHelpers}.

(** X13. A text node (one that [isElement] does not take for an element)
    whose text is made of one-byte characters is hidden from the
    accessibility tree exactly when its text is blank: empty or white space
    only.  Its attributes, style and tabbable descendants are not consulted,
    and the warning flag is left as it is. *)
Theorem text_node_hidden_iff_blank (n : Node) (warned : bool) :
  nodeType n = TEXT_NODE ->
  isElement n = false ->
  isAscii (textContent n) = true ->
  isHiddenFromAccessibilityTree (Some n) warned
  = (allWhiteSpace (textContent n), warned).
Proof.
  intros Htype Helem _. unfold isHiddenFromAccessibilityTree.
  rewrite Htype, Z.eqb_refl, truthy_trim, Helem. cbn [andb negb].
  destruct (allWhiteSpace (textContent n)); reflexivity.
Qed.

(** X14. The module-level warning flag never changes a verdict: the answer
    of [isHiddenFromAccessibilityTree] is the same whatever the flag.  The
    flag is never reset, and a call raises it only for a node that carries
    [aria-hidden="true"] and has tabbable descendants, the case in which the
    marker is ignored. *)
Theorem warning_flag_is_inert (node : option Node) (warned : bool) :
  fst (isHiddenFromAccessibilityTree node warned)
  = fst (isHiddenFromAccessibilityTree node false)
  /\ (warned = true -> snd (isHiddenFromAccessibilityTree node warned) = true)
  /\ (snd (isHiddenFromAccessibilityTree node false) = true ->
      exists n t ts,
        node = Some n
        /\ getAttribute n "aria-hidden" = Some "true"
        /\ tabbable n = Normal (t :: ts)).
Proof.
  destruct node as [n|]; cbn [isHiddenFromAccessibilityTree];
    [|repeat split; auto; discriminate].
  destruct ((nodeType n =? TEXT_NODE) && truthy (trim (textContent n)));
    [repeat split; auto; discriminate|].
  destruct (negb (isElement n)); [repeat split; auto; discriminate|].
  destruct (hidden n); [repeat split; auto; discriminate|].
  destruct (bool_decide (getAttribute n "aria-hidden" = Some "true")) eqn:Haria;
    [|repeat split; auto; discriminate].
  apply bool_decide_eq_true in Haria.
  destruct (tabbable n) as [[|t ts]|e] eqn:Htab; cbn [length Nat.eqb fst snd];
    repeat split; auto; try discriminate.
  intros _. exists n, t, ts. auto.
Qed.

End HiddenMore.

(** ** More on the classifier *)

Section ClassifierMore.
Context `{DomHelpers} `{RoleData}.

Lemma childrenPresentationalRoles_spec (r : string) :
  r ∈ childrenPresentationalRoles
  <-> exists definition,
        roles !! r = Some definition
        /\ Role.childrenPresentational definition = true.
Proof.
  unfold childrenPresentationalRoles. rewrite elem_of_dom. split.
  - intros [definition Hdef]. apply map_lookup_filter_Some in Hdef.
    exists definition. exact Hdef.
  - intros [definition Hdef]. exists definition.
    apply map_lookup_filter_Some. exact Hdef.
Qed.

(** X15. In the classifier's result the description never repeats the name:
    it is either empty or the naming oracle's description and then different
    from the name, which is always the oracle's. *)
Theorem description_never_repeats_name
    (allowed : list string) (inherited presentational : bool) (n : Node) :
  let data := getNodeAccessibilityData allowed inherited presentational n in
  NodeAccessibilityData.accessibleName data = getAccessibleName n
  /\ (NodeAccessibilityData.accessibleDescription data = ""
      \/ (NodeAccessibilityData.accessibleDescription data
          = getAccessibleDescription n
          /\ NodeAccessibilityData.accessibleDescription data
             <> NodeAccessibilityData.accessibleName data)).
Proof.
  cbn. split; [reflexivity|].
  destruct (bool_decide (getAccessibleDescription n = getAccessibleName n))
    eqn:Heq; [left; reflexivity|].
  right. apply bool_decide_eq_false in Heq. auto.
Qed.

(** X16. The spoken role of the classifier's result is empty exactly when
    the resolved role is presentational, or generic, or empty while the node
    has no non-empty [aria-roledescription] to speak instead (a node that is
    not an element never has).  So a node with any other role is always
    spoken, and a role description never makes a presentational or generic
    node spoken. *)
Theorem spokenRole_empty_iff
    (allowed : list string) (inherited presentational : bool) (n : Node) :
  let data := getNodeAccessibilityData allowed inherited presentational n in
  let r := NodeAccessibilityData.role data in
  NodeAccessibilityData.spokenRole data = ""
  <-> r ∈ presentationRoles
      \/ r = "generic"
      \/ (r = ""
          /\ ~ (isElement n = true
                /\ exists description,
                     getAttribute n "aria-roledescription" = Some description
                     /\ description <> "")).
Proof.
  cbn zeta.
  set (r := NodeAccessibilityData.role
              (getNodeAccessibilityData allowed inherited presentational n)).
  change (NodeAccessibilityData.spokenRole
            (getNodeAccessibilityData allowed inherited presentational n))
    with (getSpokenRole (bool_decide (r = "generic"))
            (bool_decide (r ∈ presentationRoles)) n r).
  unfold getSpokenRole.
  destruct (bool_decide (r ∈ presentationRoles)) eqn:Hpres.
  { apply bool_decide_eq_true in Hpres. cbn. tauto. }
  apply bool_decide_eq_false in Hpres.
  destruct (bool_decide (r = "generic")) eqn:Hgen.
  { apply bool_decide_eq_true in Hgen. cbn. tauto. }
  apply bool_decide_eq_false in Hgen. cbn [orb].
  assert (Htruthy : forall x : string, truthy x = true <-> x <> "").
  { intros [|c x]; cbn; split; congruence. }
  destruct (isElement n) eqn:Helem.
  - destruct (getAttribute n "aria-roledescription") as [description|] eqn:Hattr.
    + destruct (truthy description) eqn:Hd.
      * apply Htruthy in Hd. split.
        -- intros ->. congruence.
        -- intros [Hp|[Hg|[_ Hno]]]; try tauto.
           exfalso. apply Hno. split; [reflexivity|]. eauto.
      * assert (description = "").
        { destruct description; [reflexivity|discriminate]. }
        subst description. split.
        -- intros ->. right; right. split; [reflexivity|].
           intros [_ [description [Hd' Hne]]]. congruence.
        -- intros [Hp|[Hg|[Hr _]]]; tauto.
    + split.
      * intros ->. right; right. split; [reflexivity|].
        intros [_ [description [Hd' _]]]. discriminate.
      * intros [Hp|[Hg|[Hr _]]]; tauto.
  - split.
    + intros ->. right; right. split; [reflexivity|].
      intros [Hfalse _]. discriminate.
    + intros [Hp|[Hg|[Hr _]]]; tauto.
Qed.

(** X17. Inertness is inherited down the tree except at modal dialogs.  For
    a node that is not an element the classifier's [isInert] is the
    inherited flag, whatever the node carries; for an element under an inert
    ancestor it is [true] unless the element is a modal dialog without an
    [inert] attribute of its own. *)
Theorem inert_is_inherited
    (allowed : list string) (inherited presentational : bool) (n : Node) :
  let data := getNodeAccessibilityData allowed inherited presentational n in
  (isElement n = false -> NodeAccessibilityData.isInert data = inherited)
  /\ (isElement n = true ->
      inherited = true ->
      (NodeAccessibilityData.isInert data = false
       <-> modal_dialog n (NodeAccessibilityData.role data)
           /\ ~ carries n "inert")).
Proof.
  intros data.
  change (NodeAccessibilityData.isInert data)
    with (getIsInert inherited n (NodeAccessibilityData.role data)).
  split.
  - intros Helem. unfold getIsInert. rewrite Helem. reflexivity.
  - intros Helem ->.
    pose proof (getIsInert_spec true n (NodeAccessibilityData.role data) Helem)
      as Hspec.
    rewrite <- not_true_iff_false, Hspec.
    split.
    + intros Hno. split.
      * destruct (isModalDialog_spec n (NodeAccessibilityData.role data))
          as [Hto _].
        destruct (isDialogRole (NodeAccessibilityData.role data)
                  && hasAttribute n "aria-modal"
                  || bool_decide (getLocalName n = "dialog")
                     && hasAttribute n "open") eqn:Hmodal; [auto|].
        exfalso. apply Hno. right. split; [reflexivity|].
        intros Hm. apply isModalDialog_spec in Hm. congruence.
      * intros Hinert. apply Hno. left. exact Hinert.
    + intros [Hmodal Hno] [Hinert|[_ Hnot]]; tauto.
Qed.

(** X18. The classifier prunes the children of a node exactly when the role
    table marks the resolved role as children-presentational, or the node is
    presentational (by its explicit role or by inheritance) and the table
    allows child roles under its implicit role.  A role the table does not
    know gets no allowed child roles and does not, by itself, prune. *)
Theorem childrenPresentational_iff
    (allowed : list string) (inherited presentational : bool) (n : Node) :
  let resolved := getRole (getAccessibleName n) allowed presentational n in
  let data := getNodeAccessibilityData allowed inherited presentational n in
  (NodeAccessibilityData.childrenPresentational data = true
   <-> (exists definition,
          roles !! Resolved.role resolved = Some definition
          /\ Role.childrenPresentational definition = true)
       \/ ((Resolved.explicitRole resolved ∈ presentationRoles
            \/ presentational = true)
           /\ exists definition,
                roles !! Resolved.implicitRole resolved = Some definition
                /\ Role.allowedChildRoles definition <> []))
  /\ (roles !! Resolved.role resolved = None ->
      NodeAccessibilityData.allowedAccessibilityChildRoles data = []).
Proof.
  intros resolved data. split.
  - cbn. fold resolved.
    rewrite orb_true_iff, andb_true_iff, orb_true_iff, negb_true_iff.
    rewrite !bool_decide_eq_true, childrenPresentationalRoles_spec.
    assert (Hallowed :
              (length (allowedChildRolesOf (Resolved.implicitRole resolved))
               =? 0)%nat = false
              <-> exists definition,
                    roles !! Resolved.implicitRole resolved = Some definition
                    /\ Role.allowedChildRoles definition <> []).
    { unfold allowedChildRolesOf.
      destruct (roles !! Resolved.implicitRole resolved) as [definition|].
      - destruct (Role.allowedChildRoles definition) as [|x l] eqn:Hl; cbn.
        + split; [discriminate|]. intros [def' [Hd Hne]].
          injection Hd as <-. congruence.
        + split; [|reflexivity]. intros _. exists definition.
          split; [reflexivity|]. rewrite Hl. discriminate.
      - cbn. split; [discriminate|]. intros [def' [Hd _]]. discriminate. }
    rewrite Hallowed. tauto.
  - intros Hunknown. cbn. fold resolved. unfold allowedChildRolesOf.
    rewrite Hunknown. reflexivity.
Qed.

End ClassifierMore.

(** ** [getTabbable] *)

Section TabbableFacts.
Variable d : Document.
Variable t : DomTree.

Lemma scanSiblings_more_fuel method : forall fuel fuel' candidate outcome,
  scanSiblings d t fuel method candidate = Some outcome ->
  (fuel <= fuel')%nat ->
  scanSiblings d t fuel' method candidate = Some outcome.
Proof.
  induction fuel as [|fuel IH]; intros fuel' candidate outcome Hrun Hle;
    destruct candidate as [c|]; cbn [scanSiblings] in Hrun;
    try discriminate;
    try (destruct fuel'; exact Hrun).
  destruct fuel' as [|fuel']; [lia|]. cbn [scanSiblings].
  destruct (tabbable (d c)) as [ts|e]; [|exact Hrun].
  destruct (0 <? length ts)%nat; [exact Hrun|].
  apply IH; [exact Hrun|lia].
Qed.

Lemma getTabbable_more_fuel method container :
  forall fuel fuel' element outcome,
    getTabbable d t fuel method element container = Some outcome ->
    (fuel <= fuel')%nat ->
    getTabbable d t fuel' method element container = Some outcome.
Proof.
  induction fuel as [|fuel IH]; intros fuel' element outcome Hrun Hle;
    [discriminate|].
  destruct fuel' as [|fuel']; [lia|]. cbn [getTabbable] in *.
  destruct element as [e|]; [|exact Hrun].
  destruct (bool_decide (parentElement t e = Some container)); [exact Hrun|].
  destruct (negb (contains t container e)); [exact Hrun|].
  destruct (isTabbable t e) as [[|]|x]; try exact Hrun.
  destruct (scanSiblings d t fuel method (sibling t method e))
    as [scanned|] eqn:Hscan; [|discriminate].
  rewrite (scanSiblings_more_fuel method fuel fuel' _ scanned Hscan)
    by lia.
  destruct scanned as [[r|]|x]; try exact Hrun.
  apply IH; [exact Hrun|lia].
Qed.

Lemma scanSiblings_total method (position : Method -> NodeRef -> nat) :
  (forall method e c, sibling t method e = Some c ->
                      (position method c < position method e)%nat) ->
  forall fuel candidate,
    (forall c, candidate = Some c -> (position method c < fuel)%nat) ->
    exists outcome, scanSiblings d t fuel method candidate = Some outcome.
Proof.
  intros Hposition.
  induction fuel as [|fuel IH]; intros candidate Hfuel;
    destruct candidate as [c|]; cbn [scanSiblings]; eauto.
  - specialize (Hfuel c eq_refl). lia.
  - destruct (tabbable (d c)) as [ts|e]; [|eauto].
    destruct (0 <? length ts)%nat; [eauto|].
    apply IH. intros c' Hc'. specialize (Hfuel c eq_refl).
    specialize (Hposition method c c' Hc'). lia.
Qed.

Lemma getTabbable_total method container (depth : NodeRef -> nat)
    (position : Method -> NodeRef -> nat) :
  (forall e p, parentElement t e = Some p -> (depth p < depth e)%nat) ->
  (forall method e c, sibling t method e = Some c ->
                      (position method c < position method e)%nat) ->
  forall n element,
    (forall e, element = Some e -> (depth e < n)%nat) ->
    exists fuel outcome,
      getTabbable d t fuel method element container = Some outcome.
Proof.
  intros Hdepth Hposition.
  induction n as [|n IH]; intros element Hn.
  - destruct element as [e|]; [specialize (Hn e eq_refl); lia|].
    exists 1%nat. cbn. eauto.
  - destruct element as [e|]; [|exists 1%nat; cbn; eauto].
    destruct (scanSiblings_total method position Hposition
                (S (position method e)) (sibling t method e))
      as [scanned Hscan].
    { intros c Hc. specialize (Hposition method e c Hc). lia. }
    destruct (IH (parentElement t e)) as [fuel [up Hup]].
    { intros p Hp. specialize (Hdepth e p Hp). specialize (Hn e eq_refl). lia. }
    exists (S (Nat.max (S (position method e)) fuel)).
    cbn [getTabbable].
    destruct (bool_decide (parentElement t e = Some container)); [eauto|].
    destruct (negb (contains t container e)); [eauto|].
    destruct (isTabbable t e) as [[|]|x]; eauto.
    rewrite (scanSiblings_more_fuel method _ _ _ scanned Hscan) by lia.
    destruct scanned as [[r|]|x]; eauto.
    exists up. eapply getTabbable_more_fuel; [exact Hup|lia].
Qed.

(** X19. On a document whose parent and sibling links are those of a finite
    tree, [getTabbable] terminates, for either direction and whatever the
    element and the container: some amount of fuel gives an outcome, and
    every larger amount gives the same one. *)
Theorem getTabbable_terminates method element container :
  finiteTree t ->
  exists fuel outcome,
    forall fuel',
      (fuel <= fuel')%nat ->
      getTabbable d t fuel' method element container = Some outcome.
Proof.
  intros [depth [position [Hdepth Hposition]]].
  destruct (getTabbable_total method container depth position Hdepth Hposition
              (S (match element with Some e => depth e | None => 0%nat end))
              element) as [fuel [outcome Hrun]].
  { intros e ->. lia. }
  exists fuel, outcome. intros fuel' Hle.
  eapply getTabbable_more_fuel; eassumption.
Qed.

Lemma scanSiblings_sound method a r : forall fuel b,
  (b = a \/ laterSibling t method a b) ->
  scanSiblings d t fuel method (sibling t method b) = Some (Normal (Some r)) ->
  exists c tabbableElements,
    laterSibling t method a c
    /\ tabbable (d c) = Normal tabbableElements
    /\ last tabbableElements = Some r.
Proof.
  induction fuel as [|fuel IH]; intros b Hb Hrun;
    destruct (sibling t method b) as [c|] eqn:Hc; cbn [scanSiblings] in Hrun;
    try discriminate.
  assert (Hlater : laterSibling t method a c).
  { destruct Hb as [->|Hb]; [apply later_first; exact Hc|].
    eapply later_next; eassumption. }
  destruct (tabbable (d c)) as [ts|e] eqn:Hts; [|discriminate].
  destruct (0 <? length ts)%nat.
  - injection Hrun as Hlast. exists c, ts. auto.
  - apply (IH c); [right; exact Hlater|exact Hrun].
Qed.

(** X20. What [getTabbable] answers.  For no element, for an element whose
    parent is the container, and for an element the container does not
    contain, the answer is [null], whether the element is tabbable or not.  A
    node it does answer is found at the element or one of its ancestors [a],
    inside the container and not a child of it: it is [a] itself, tabbable,
    or else the last of the tabbable elements that the [tabbable] library
    lists for a sibling that follows [a] in the direction of the search. *)
Theorem getTabbable_answer method container :
  (forall fuel, getTabbable d t (S fuel) method None container
                = Some (Normal None))
  /\ (forall fuel e,
        parentElement t e = Some container \/ contains t container e = false ->
        getTabbable d t (S fuel) method (Some e) container = Some (Normal None))
  /\ (forall fuel e r,
        getTabbable d t fuel method (Some e) container = Some (Normal (Some r)) ->
        exists a,
          ancestorOrSelf t e a
          /\ contains t container a = true
          /\ parentElement t a <> Some container
          /\ ((r = a /\ isTabbable t a = Normal true)
              \/ exists c tabbableElements,
                   laterSibling t method a c
                   /\ tabbable (d c) = Normal tabbableElements
                   /\ last tabbableElements = Some r)).
Proof.
  split; [reflexivity|]. split.
  - intros fuel e [Hchild|Houtside]; cbn [getTabbable].
    + rewrite bool_decide_eq_true_2 by exact Hchild. reflexivity.
    + rewrite Houtside. destruct (bool_decide _); reflexivity.
  - intros fuel e r.
    assert (Hgen : forall fuel a,
              ancestorOrSelf t e a ->
              getTabbable d t fuel method (Some a) container
              = Some (Normal (Some r)) ->
              exists a',
                ancestorOrSelf t e a'
                /\ contains t container a' = true
                /\ parentElement t a' <> Some container
                /\ ((r = a' /\ isTabbable t a' = Normal true)
                    \/ exists c tabbableElements,
                         laterSibling t method a' c
                         /\ tabbable (d c) = Normal tabbableElements
                         /\ last tabbableElements = Some r)).
    { clear fuel. induction fuel as [|fuel IH]; intros a Ha Hrun;
        [discriminate|].
      cbn [getTabbable] in Hrun.
      destruct (bool_decide (parentElement t a = Some container)) eqn:Hchild;
        [discriminate|].
      apply bool_decide_eq_false in Hchild.
      destruct (contains t container a) eqn:Hinside; [|discriminate].
      cbn [negb] in Hrun.
      destruct (isTabbable t a) as [[|]|x] eqn:Htab; try discriminate.
      - injection Hrun as <-. exists a. repeat split; auto.
      - destruct (scanSiblings d t fuel method (sibling t method a))
          as [[[r'|]|x]|] eqn:Hscan; try discriminate.
        + injection Hrun as ->.
          destruct (scanSiblings_sound method a r fuel a (or_introl eq_refl) Hscan)
            as [c [ts Hfound]].
          exists a. repeat split; try assumption. right. exists c, ts. exact Hfound.
        + destruct (parentElement t a) as [p|] eqn:Hp.
          * apply (IH p); [eapply ancestor_parent; eassumption|exact Hrun].
          * destruct fuel; discriminate. }
    intros Hrun. apply (Hgen fuel e); [apply ancestor_self|exact Hrun].
Qed.

End TabbableFacts.

(** ** Commands that find a target, and a second [start] *)

Section TargetFacts.
Context `{Collaborators}.

(** X21. On a started engine whose modal-scoped sequence is not empty and
    whose dialogs resolve, when the command answers an index that [tree.at]
    resolves in the sequence (from minus its length up to its length,
    excluded), [perform] returns with the entry at that index active and its
    phrase and text the last of the logs.  When the index is outside,
    [perform] throws a [TypeError] and the active node and the logs are what
    they were. *)
Theorem perform_lands_on_target d command options s run index :
  _container s <> None ->
  modalScoped d s <> [] ->
  dialogsResolve (flattened d s) = true ->
  commands command = Some run ->
  run d options (_container s) (getCurrentIndex s (modalScoped d s))
    (modalScoped d s) = Some index ->
  let length := Z.of_nat (length (modalScoped d s)) in
  (- length <= index < length ->
   exists s' n,
     perform d command options s = (Normal tt, s')
     /\ at_ (modalScoped d s) index = Some n
     /\ _activeNode s' = Some n
     /\ last (_spokenPhraseLog s') = Some (getSpokenPhrase d n)
     /\ last (_itemTextLog s') = Some (getItemText d n))
  /\ (index < - length \/ length <= index ->
      exists s',
        perform d command options s = (Throw TypeError, s')
        /\ _activeNode s' = _activeNode s
        /\ _spokenPhraseLog s' = _spokenPhraseLog s
        /\ _itemTextLog s' = _itemTextLog s).
Proof.
  intros Hstarted Hnonempty Hres Hcommand Hindex len.
  rewrite perform_run by assumption. rewrite Hcommand, Hindex.
  split.
  - intros Hrange.
    destruct (updateStateAt_speaks d s index Hres Hrange)
      as [s' [n [Hrun [Hat [Hact [_ [_ [Hspoken Htext]]]]]]]].
    exists s', n. auto.
  - intros Hout. exists (cached d s).
    unfold updateStateAt.
    assert (Hat : at_ (modalScoped d s) index = None).
    { unfold at_. fold len.
      destruct (Z.ltb_spec index 0).
      - destruct (Z.ltb_spec (len + index) 0); [reflexivity|lia].
      - destruct (Z.ltb_spec index 0); [lia|].
        apply lookup_ge_None. lia. }
    rewrite Hat. repeat split.
Qed.

(** X22. [start] neither empties the logs nor drops the cached tree: called
    again without a [stop] in between, while a non-empty tree is cached (and
    its dialogs resolve), and no overlay is asked for or the container takes
    it, it records the new container but makes the first entry of the
    cached tree active, whatever the new container and the document hold,
    and appends to the logs of the earlier session.  When the container
    throws on the overlay, [start] rejects with that error: the new
    container and the overlay are recorded, and the active node, the cached
    tree and the logs are those of the earlier session. *)
Theorem start_keeps_cache_and_logs
    d container displayCursor rootHasDocument s first rest :
  _treeCache s = Some (first :: rest) ->
  dialogsResolve (first :: rest) = true ->
  (displayCursor = false \/ rootHasDocument = false
   \/ appendOverlay (d container) = Normal tt ->
   exists s',
     start d (Some container) displayCursor rootHasDocument s = (Normal tt, s')
     /\ _container s' = Some container
     /\ _activeNode s' = Some first
     /\ _treeCache s' = Some (first :: rest)
     /\ grownInStep s s'
     /\ last (_spokenPhraseLog s') = Some (getSpokenPhrase d first))
  /\ (forall e,
        displayCursor = true ->
        rootHasDocument = true ->
        appendOverlay (d container) = Throw e ->
        start d (Some container) displayCursor rootHasDocument s
        = (Throw e, set_cursor true (set_container (Some container) s))).
Proof.
  intros Hcache Hres. split.
  2:{ intros e -> -> Hthrow. rewrite start_run. cbv zeta. cbn [andb].
      rewrite Hthrow. reflexivity. }
  intros Hoverlay.
  set (s0 := set_disconnectDOMObserver true
               (set_cursor (_cursor s || displayCursor && rootHasDocument)
                  (set_container (Some container) s))).
  set (s1 := set_boundHandleFocusChange true s0).
  assert (Hstart :
            start d (Some container) displayCursor rootHasDocument s
            = updateState d first false s1).
  { rewrite start_run. cbv zeta. unfold s1, s0.
    destruct s as [a c cu il sl tc ob bo]. cbn in Hcache. subst tc.
    destruct (displayCursor && rootHasDocument) eqn:Hboth.
    - apply andb_true_iff in Hboth as [-> ->].
      destruct Hoverlay as [Hno|[Hno|Hok]]; try discriminate Hno.
      rewrite Hok. destruct cu; reflexivity.
    - destruct cu; reflexivity. }
  assert (Hflat : flattened d s1 = first :: rest).
  { unfold flattened, s1, s0. cbn. rewrite Hcache. reflexivity. }
  assert (Hres1 : dialogsResolve (flattened d s1) = true)
    by (rewrite Hflat; exact Hres).
  assert (Hin : In first (flattened d s1)) by (rewrite Hflat; left; reflexivity).
  destruct (updateState_speaks d first s1 Hres1 Hin)
    as [s' [Hrun [Hact [Hcont [Hflat' [Hspoken _]]]]]].
  exists s'. rewrite Hstart. repeat split; try assumption.
  - assert (Hkept : _treeCache s' = _treeCache s1 \/ _treeCache s' = Some (flattened d s1)).
    { destruct (dialogChanged first s1) eqn:Hchanged.
      - destruct (dialogChanged_true _ _ Hchanged) as [dialog Hdialog].
        destruct (findDialog_resolves d first s1 dialog Hres1 Hin Hdialog)
          as [dialogNode Hfind].
        rewrite (updateState_new_dialog d first false s1 dialogNode Hchanged Hfind)
          in Hrun.
        injection Hrun as <-. right. rewrite land_treeCache. reflexivity.
      - rewrite updateState_same_dialog in Hrun by assumption.
        injection Hrun as <-. left. apply land_treeCache. }
    destruct Hkept as [->| ->]; [exact Hcache|rewrite Hflat; reflexivity].
  - pose proof (updateState_grows d first false s1) as Hgrow.
    rewrite Hrun in Hgrow.
    eapply grownInStep_trans; [|exact Hgrow].
    apply grownInStep_same_logs; reflexivity.
Qed.

End TargetFacts.

(** ** Scenarios for the further properties *)

Section MoreScenarios.
Import Sample MoreSample.
#[local] Existing Instance Sample.collaborators.

Lemma navigation_lands_and_speaks_witness :
  _container onPlay <> None
  /\ exists s' n,
       next plainDocument onPlay = (Normal tt, s')
       /\ In n (modalScoped plainDocument onPlay)
       /\ _activeNode s' = Some n
       /\ lastSpokenPhrase s' = (Normal (getSpokenPhrase plainDocument n), s')
       /\ itemText s' = (Normal (getItemText plainDocument n), s').
Proof.
  assert (Hstarted : _container onPlay <> None) by (vm_compute; discriminate).
  assert (Hnonempty : modalScoped plainDocument onPlay <> [])
    by (vm_compute; discriminate).
  assert (Hres : dialogsResolve (flattened plainDocument onPlay) = true)
    by reflexivity.
  split; [exact Hstarted|].
  exact (navigation_lands_and_speaks plainDocument onPlay (next plainDocument)
           Hstarted Hnonempty Hres (or_introl eq_refl)).
Defined.

Lemma there_and_back_witness :
  _activeNode onPage = Some page
  /\ exists s1 s2,
       nextTimes 7 plainDocument onPage = (Normal tt, s1)
       /\ previousTimes 7 plainDocument s1 = (Normal tt, s2)
       /\ _activeNode s2 = Some page.
Proof.
  assert (Hstarted : _container onPage <> None) by (vm_compute; discriminate).
  assert (Hactive : _activeNode onPage = Some page) by reflexivity.
  assert (Hin : In page (modalScoped plainDocument onPage))
    by (left; reflexivity).
  assert (Hdistinct : NoDup (identity <$> modalScoped plainDocument onPage)).
  { apply (bool_decide_unpack _). vm_compute. exact I. }
  assert (Hstable : isModal plainDocument page = true
                    \/ forall n, In n (flattened plainDocument onPage) ->
                                 isModal plainDocument n = false).
  { right. intros n Hn.
    change (flattened plainDocument onPage) with dialogPage in Hn.
    repeat (destruct Hn as [<-|Hn]; [reflexivity|]). destruct Hn. }
  assert (Hres : dialogsResolve (flattened plainDocument onPage) = true)
    by reflexivity.
  split; [exact Hactive|].
  exact (proj1 (there_and_back plainDocument onPage page 7
                  Hstarted Hactive Hin Hdistinct Hstable Hres)).
Defined.

Lemma logs_grow_in_step_witness :
  grownInStep onPage
    (script plainDocument [Next; Press "Enter"; Previous; Act] onPage).
Proof.
  exact (proj1 (logs_grow_in_step plainDocument
                  [Next; Press "Enter"; Previous; Act] None onPage eq_refl)).
Defined.

Lemma modal_scope_holds_witness :
  _activeNode onModalOk = Some ok
  /\ exists target,
       _activeNode
         (script modalDocument
            [Next; Previous; Perform "moveToNextLandmark" tt; Previous]
            onModalOk) = Some target
       /\ parentDialog target = Some 31%positive.
Proof.
  split; [reflexivity|].
  exact (modal_scope_holds modalDocument
           [Next; Previous; Perform "moveToNextLandmark" tt; Previous]
           onModalOk ok 31%positive eq_refl eq_refl eq_refl eq_refl).
Defined.

Lemma perform_without_target_witness :
  commands "moveToNextSomething" = None
  /\ uncallable "moveToNextSomething" = false
  /\ (exists s',
        perform plainDocument "moveToNextSomething" tt onPlay = (Normal tt, s')
        /\ _activeNode s' = _activeNode onPlay
        /\ _spokenPhraseLog s' = _spokenPhraseLog onPlay
        /\ _itemTextLog s' = _itemTextLog onPlay)
  /\ commands "__proto__" = None
  /\ uncallable "__proto__" = true
  /\ modalScoped plainDocument onPlay <> []
  /\ (exists s',
        perform plainDocument "__proto__" tt onPlay = (Throw TypeError, s')
        /\ _activeNode s' = _activeNode onPlay
        /\ _spokenPhraseLog s' = _spokenPhraseLog onPlay
        /\ _itemTextLog s' = _itemTextLog onPlay).
Proof.
  assert (Hstarted : _container onPlay <> None) by (vm_compute; discriminate).
  assert (Hnonempty : modalScoped plainDocument onPlay <> [])
    by (vm_compute; discriminate).
  split; [reflexivity|]. split; [reflexivity|]. split.
  - exact (proj1 (perform_without_target plainDocument "moveToNextSomething" tt
                    onPlay Hstarted)
             (or_introl (conj eq_refl eq_refl))).
  - split; [reflexivity|]. split; [reflexivity|]. split; [exact Hnonempty|].
    exact (proj2 (perform_without_target plainDocument "__proto__" tt onPlay
                    Hstarted)
             eq_refl eq_refl Hnonempty).
Defined.

Lemma empty_tree_is_idle_witness :
  modalScoped plainDocument onNothing = []
  /\ exists s',
       call plainDocument Next onNothing = (Normal Undefined, s')
       /\ _activeNode s' = _activeNode onNothing
       /\ _spokenPhraseLog s' = _spokenPhraseLog onNothing
       /\ _itemTextLog s' = _itemTextLog onNothing.
Proof.
  assert (Hstarted : _container onNothing <> None) by (vm_compute; discriminate).
  split; [reflexivity|].
  exact (empty_tree_is_idle plainDocument Next onNothing Hstarted eq_refl
           eq_refl).
Defined.

Lemma restart_is_fresh_start_witness :
  stop overlaidDocument onPlayOverlaid = (Normal tt, stopped onPlayOverlaid)
  /\ start overlaidDocument (Some 30%positive) true true
       (stopped onPlayOverlaid)
     = start overlaidDocument (Some 30%positive) true true newVirtual
  /\ start overlaidDocument (Some 50%positive) true true newVirtual
     = (Throw HostError,
        set_cursor true (set_container (Some 50%positive) newVirtual))
  /\ start overlaidDocument (Some 50%positive) true true
       (stopped onPlayOverlaid)
     = (Throw HostError,
        set_disconnectDOMObserver (_disconnectDOMObserver onPlayOverlaid)
          (set_cursor true (set_container (Some 50%positive) newVirtual))).
Proof.
  assert (Hstop : stop overlaidDocument onPlayOverlaid
                  = (Normal tt, stopped onPlayOverlaid)) by reflexivity.
  split; [exact Hstop|]. split.
  - exact (proj1 (restart_is_fresh_start overlaidDocument overlaidDocument
                    30%positive true true onPlayOverlaid
                    (stopped onPlayOverlaid) Hstop)
             (or_intror (or_intror eq_refl))).
  - exact (proj2 (restart_is_fresh_start overlaidDocument overlaidDocument
                    50%positive true true onPlayOverlaid
                    (stopped onPlayOverlaid) Hstop)
             HostError eq_refl eq_refl eq_refl).
Defined.

Lemma start_positions_on_first_witness :
  synthesize overlaidDocument (Some 20%positive) = [play; pause]
  /\ appendOverlay (overlaidDocument 20%positive) = Normal tt
  /\ (exists s',
        start overlaidDocument (Some 20%positive) true true newVirtual
        = (Normal tt, s')
        /\ _container s' = Some 20%positive
        /\ _activeNode s' = Some play
        /\ _boundHandleFocusChange s' = true
        /\ lastSpokenPhrase s'
           = (Normal (getSpokenPhrase overlaidDocument play), s')
        /\ itemText s' = (Normal (getItemText overlaidDocument play), s'))
  /\ appendOverlay (overlaidDocument 50%positive) = Throw HostError
  /\ start overlaidDocument (Some 50%positive) true true newVirtual
     = (Throw HostError,
        set_cursor true (set_container (Some 50%positive) newVirtual)).
Proof.
  split; [reflexivity|]. split; [reflexivity|]. split.
  - exact (proj1 (proj1 (start_positions_on_first overlaidDocument 20%positive
                           true true)
                    (or_intror (or_intror eq_refl)))
             play [pause] eq_refl eq_refl).
  - split; [reflexivity|].
    exact (proj2 (start_positions_on_first overlaidDocument 50%positive
                    true true)
             HostError eq_refl eq_refl eq_refl).
Defined.


Lemma focus_follows_the_target_witness :
  exists s',
    handleFocusChange plainDocument (Some 77%positive) onPlay = (Normal tt, s')
    /\ _activeNode s' = _activeNode onPlay
    /\ _spokenPhraseLog s' = _spokenPhraseLog onPlay
    /\ _itemTextLog s' = _itemTextLog onPlay.
Proof.
  exact (proj1 (focus_follows_the_target plainDocument (Some 77%positive) onPlay)
           eq_refl).
Defined.

Lemma logs_do_not_steer_witness :
  _spokenPhraseLog onPageCleared <> _spokenPhraseLog onPage
  /\ fst (call plainDocument Next onPage)
     = fst (call plainDocument Next onPageCleared)
  /\ sameCursor (snd (call plainDocument Next onPage))
       (snd (call plainDocument Next onPageCleared)).
Proof.
  assert (Hsame : sameCursor onPage onPageCleared) by (repeat split).
  split; [vm_compute; discriminate|].
  exact (logs_do_not_steer plainDocument Next onPage onPageCleared eq_refl Hsame).
Defined.

End MoreScenarios.

Section LiveScenarios.
Import LiveSample.
#[local] Existing Instance LiveSample.collaborators.

Lemma lost_cursor_restarts_witness :
  _activeNode shown = None
  /\ getCurrentIndex shown (modalScoped shownDocument shown) = -1
  /\ exists s',
       next shownDocument shown = (Normal tt, s')
       /\ _activeNode s' = Some Sample.play.
Proof.
  assert (Hstarted : _container shown <> None) by (vm_compute; discriminate).
  assert (Hscope : modalScoped shownDocument shown = [Sample.play; Sample.pause])
    by reflexivity.
  assert (Hlost : getCurrentIndex shown (modalScoped shownDocument shown) = -1)
    by reflexivity.
  assert (Hres : dialogsResolve (flattened shownDocument shown) = true)
    by reflexivity.
  split; [reflexivity|]. split; [exact Hlost|].
  exact (lost_cursor_restarts shownDocument shown Sample.play [Sample.pause]
           (next shownDocument) Hstarted Hscope Hlost Hres (or_introl eq_refl)).
Defined.

Lemma perform_lands_on_target_witness :
  modalScoped shownDocument onPage = Sample.dialogPage
  /\ exists s' n,
       perform shownDocument "moveToNextDialog" tt onPage = (Normal tt, s')
       /\ at_ (modalScoped shownDocument onPage) 1 = Some n
       /\ _activeNode s' = Some n
       /\ last (_spokenPhraseLog s') = Some (getSpokenPhrase shownDocument n)
       /\ last (_itemTextLog s') = Some (getItemText shownDocument n).
Proof.
  assert (Hstarted : _container onPage <> None) by (vm_compute; discriminate).
  assert (Hnonempty : modalScoped shownDocument onPage <> [])
    by (vm_compute; discriminate).
  assert (Hres : dialogsResolve (flattened shownDocument onPage) = true)
    by reflexivity.
  split; [reflexivity|].
  refine (proj1 (perform_lands_on_target shownDocument "moveToNextDialog" tt
                   onPage _ 1 Hstarted Hnonempty Hres eq_refl eq_refl) _).
  vm_compute. split; [discriminate|reflexivity].
Defined.

Lemma start_keeps_cache_and_logs_witness :
  _container onPage = Some 30%positive
  /\ (exists s',
        startedTwice = (Normal tt, s')
        /\ _container s' = Some 20%positive
        /\ _activeNode s' = Some Sample.page
        /\ _treeCache s' = Some Sample.dialogPage
        /\ grownInStep onPage s'
        /\ last (_spokenPhraseLog s')
           = Some (getSpokenPhrase shownDocument Sample.page))
  /\ appendOverlay (MoreSample.overlaidDocument 50%positive) = Throw HostError
  /\ start MoreSample.overlaidDocument (Some 50%positive) true true onPage
     = (Throw HostError,
        set_cursor true (set_container (Some 50%positive) onPage)).
Proof.
  split; [reflexivity|]. split.
  - exact (proj1 (start_keeps_cache_and_logs shownDocument 20%positive
                    false false onPage Sample.page
                    [Sample.confirm; Sample.ok; Sample.endConfirm;
                     Sample.endPage]
                    eq_refl eq_refl)
             (or_introl eq_refl)).
  - split; [reflexivity|].
    exact (proj2 (start_keeps_cache_and_logs MoreSample.overlaidDocument
                    50%positive true true onPage Sample.page
                    [Sample.confirm; Sample.ok; Sample.endConfirm;
                     Sample.endPage]
                    eq_refl eq_refl)
             HostError eq_refl eq_refl eq_refl).
Defined.

End LiveScenarios.

Lemma text_node_hidden_iff_blank_witness :
  @isHiddenFromAccessibilityTree Sample.helpers
    (Some (MoreSample.textNode "  ")) false = (true, false)
  /\ @isHiddenFromAccessibilityTree Sample.helpers
       (Some (MoreSample.textNode " Pause ")) false = (false, false).
Proof.
  split.
  - exact (@text_node_hidden_iff_blank Sample.helpers
             (MoreSample.textNode "  ") false eq_refl eq_refl eq_refl).
  - exact (@text_node_hidden_iff_blank Sample.helpers
             (MoreSample.textNode " Pause ") false eq_refl eq_refl eq_refl).
Defined.

Lemma warning_flag_is_inert_witness :
  snd (@isHiddenFromAccessibilityTree Sample.helpers
         (Some Sample.hiddenWrapper) true) = true
  /\ exists n t ts,
       Some Sample.hiddenWrapper = Some n
       /\ getAttribute n "aria-hidden" = Some "true"
       /\ tabbable n = Normal (t :: ts).
Proof.
  pose proof (@warning_flag_is_inert Sample.helpers
                (Some Sample.hiddenWrapper) true) as [_ [Hkept _]].
  pose proof (@warning_flag_is_inert Sample.helpers
                (Some Sample.hiddenWrapper) false) as [_ [_ Hraised]].
  split; [exact (Hkept eq_refl)|exact (Hraised eq_refl)].
Defined.

Lemma inert_is_inherited_witness :
  NodeAccessibilityData.isInert
    (@getNodeAccessibilityData Sample.helpers Sample.roleData
       [] true false (MoreSample.textNode "Pause")) = true
  /\ (NodeAccessibilityData.isInert
        (@getNodeAccessibilityData Sample.helpers Sample.roleData
           [] true false Sample.inertDialog) = false
      <-> @modal_dialog Sample.helpers Sample.inertDialog "dialog"
          /\ ~ carries Sample.inertDialog "inert").
Proof.
  split.
  - exact (proj1 (@inert_is_inherited Sample.helpers Sample.roleData
                    [] true false (MoreSample.textNode "Pause")) eq_refl).
  - exact (proj2 (@inert_is_inherited Sample.helpers Sample.roleData
                    [] true false Sample.inertDialog) eq_refl eq_refl).
Defined.

Lemma childrenPresentational_iff_witness :
  NodeAccessibilityData.allowedAccessibilityChildRoles
    (@getNodeAccessibilityData Sample.helpers Sample.roleData
       [] false false (Sample.element "div" [("role", "marquee")])) = [].
Proof.
  exact (proj2 (@childrenPresentational_iff Sample.helpers Sample.roleData
                  [] false false (Sample.element "div" [("role", "marquee")]))
           eq_refl).
Defined.

Lemma getTabbable_terminates_witness :
  exists fuel outcome,
    forall fuel',
      (fuel <= fuel')%nat ->
      getTabbable TabSample.document TabSample.structure fuel'
        PreviousElementSibling (Some 5%positive) 1%positive = Some outcome.
Proof.
  apply getTabbable_terminates.
  exists TabSample.depth, TabSample.position. split.
  - intros e p. unfold TabSample.structure, TabSample.depth. cbn.
    repeat case_bool_decide; subst; cbn; intros Hp; try discriminate;
      inversion Hp; subst; cbn; lia.
  - intros method e c. unfold TabSample.structure, TabSample.position.
    destruct method; cbn; repeat case_bool_decide; subst; intros Hc;
      try discriminate; inversion Hc; subst; cbn; lia.
Defined.

Lemma getTabbable_answer_witness :
  getTabbable TabSample.document TabSample.structure 5
    PreviousElementSibling (Some 5%positive) 1%positive
  = Some (Normal (Some 9%positive))
  /\ exists a,
       ancestorOrSelf TabSample.structure 5%positive a
       /\ contains TabSample.structure 1%positive a = true
       /\ parentElement TabSample.structure a <> Some 1%positive
       /\ ((9%positive = a /\ isTabbable TabSample.structure a = Normal true)
           \/ exists c tabbableElements,
                laterSibling TabSample.structure PreviousElementSibling a c
                /\ tabbable (TabSample.document c) = Normal tabbableElements
                /\ last tabbableElements = Some 9%positive).
Proof.
  split; [reflexivity|].
  exact (proj2 (proj2 (getTabbable_answer TabSample.document TabSample.structure
                         PreviousElementSibling 1%positive))
           5%nat 5%positive 9%positive eq_refl).
Defined.
